(** * Repository Intelligence Tool: tech-stack detection, maturity
    estimation, service scanning and technology ranking.

    A shallow embedding of the rule logic of
    - [src/analyze_repos.py]   ([detect_tech_stack],
      [estimate_project_maturity], the summary extraction of
      [analyze_repositories]),
    - [src/utils/github.py]    ([detect_services]),
    - [src/generate_reports.py] ([get_top_technologies]),
    followed by the properties of these functions.

    Modelling conventions.
    - A Python [str] is a [string] of 8-bit characters; [str.lower],
      [str.strip], the regex classes [\d], [\w] are the ASCII ones.
    - A Python [dict] used as a map is a [gmap string _]; a [dict] whose
      insertion order is observable (the counter of
      [get_top_technologies], the literal alias table) is an association
      list; a Python [set] is a [gset string].
    - [dict.get(k, d)] on the JSON record is an [option] field with
      [default d]. *)

From Stdlib Require Import ZArith Ascii String List Bool Lia Sorting.Sorted.
From stdpp Require Import base option list gmap sets strings fin_maps sorting.

Local Open Scope Z_scope.

(** ** Python string primitives *)
Module PyStr.

Definition char_in_range (lo hi : N) (c : ascii) : bool :=
  ((lo <=? N_of_ascii c) && (N_of_ascii c <=? hi))%N.

Definition is_upper (c : ascii) : bool := char_in_range 65 90 c.
Definition is_lower (c : ascii) : bool := char_in_range 97 122 c.
Definition is_digit (c : ascii) : bool := char_in_range 48 57 c.
Definition is_alnum (c : ascii) : bool :=
  is_upper c || is_lower c || is_digit c.

(** [\w]: letters, digits and the underscore. *)
Definition is_word (c : ascii) : bool :=
  is_alnum c || Ascii.eqb c "_".

(** [str.isspace] on one character: TAB..CR, FS..US and the space. *)
Definition is_space (c : ascii) : bool :=
  char_in_range 9 13 c || char_in_range 28 32 c.

Definition lower_char (c : ascii) : ascii :=
  if is_upper c then ascii_of_N (N_of_ascii c + 32) else c.

(** [s.lower()] *)
Fixpoint lower (s : string) : string :=
  match s with
  | EmptyString => EmptyString
  | String c s' => String (lower_char c) (lower s')
  end.

(** [s.startswith(p)] *)
Fixpoint startswith (p s : string) : bool :=
  match p, s with
  | EmptyString, _ => true
  | String a p', String b s' => Ascii.eqb a b && startswith p' s'
  | String _ _, EmptyString => false
  end.

(** [needle in hay] on strings: plain substring containment. *)
Fixpoint str_in (needle hay : string) : bool :=
  startswith needle hay ||
  match hay with
  | EmptyString => false
  | String _ hay' => str_in needle hay'
  end.

(** [x in l] on a list of strings. *)
Definition list_in (x : string) (l : list string) : bool :=
  existsb (String.eqb x) l.

(** Truthiness of a string and of a list. *)
Definition str_truthy (s : string) : bool :=
  match s with EmptyString => false | _ => true end.
Definition list_truthy {A} (l : list A) : bool :=
  match l with [] => false | _ => true end.

(** [s.split(sep)] for a non-empty separator: a left-to-right scan for
    non-overlapping occurrences.  [skip] is the number of separator
    characters still to be jumped over; the head of the result is the
    piece under construction. *)
Fixpoint split_scan (sep : string) (skip : nat) (s : string)
  : list string :=
  match s with
  | EmptyString => [EmptyString]
  | String c s' =>
      match skip with
      | S k => split_scan sep k s'
      | O =>
          if startswith sep s
          then EmptyString :: split_scan sep (String.length sep - 1) s'
          else match split_scan sep O s' with
               | piece :: pieces => String c piece :: pieces
               | [] => [String c EmptyString]
               end
      end
  end.
Definition split (sep s : string) : list string := split_scan sep O s.

(** [s.lstrip()], [s.rstrip()], [s.strip()] *)
Fixpoint lstrip (s : string) : string :=
  match s with
  | EmptyString => EmptyString
  | String c s' => if is_space c then lstrip s' else s
  end.
Fixpoint rstrip (s : string) : string :=
  match s with
  | EmptyString => EmptyString
  | String c s' =>
      match rstrip s' with
      | EmptyString => if is_space c then EmptyString
                       else String c EmptyString
      | r => String c r
      end
  end.
Definition strip (s : string) : string := rstrip (lstrip s).

(** [s[:n]] for a non-negative literal [n]. *)
Fixpoint take_str (n : nat) (s : string) : string :=
  match n, s with
  | S n', String c s' => String c (take_str n' s')
  | _, _ => EmptyString
  end.

(** [l[:n]] on a list, for any integer [n]: a negative bound counts
    from the end. *)
Definition slice_to {A} (n : Z) (l : list A) : list A :=
  if 0 <=? n then take (Z.to_nat n) l
  else take (Z.to_nat (Z.of_nat (length l) + n)) l.

Definition LF : string := String (ascii_of_nat 10) EmptyString.

(** [s[n:]] for a non-negative [n]. *)
Fixpoint drop_str (n : nat) (s : string) : string :=
  match n, s with
  | O, _ => s
  | S n', String _ s' => drop_str n' s'
  | S _, EmptyString => EmptyString
  end.

(** [s.replace(old, new)] for a non-empty [old]: the occurrences of
    [old] are replaced from left to right, without overlap.  [skip] is
    the number of characters of the current occurrence still to be
    jumped over. *)
Fixpoint replace_scan (old new : string) (skip : nat) (s : string) : string :=
  match s with
  | EmptyString => EmptyString
  | String c s' =>
      match skip with
      | S k => replace_scan old new k s'
      | O =>
          if startswith old s
          then new +:+ replace_scan old new (String.length old - 1) s'
          else String c (replace_scan old new O s')
      end
  end.
Definition replace (old new s : string) : string := replace_scan old new O s.

(** [s.rfind(c)] for a single character: the index of its last
    occurrence, [-1] when there is none. *)
Fixpoint rfind (c : ascii) (s : string) : Z :=
  match s with
  | EmptyString => -1
  | String d s' =>
      let i := rfind c s' in
      if 0 <=? i then i + 1 else if Ascii.eqb d c then 0 else -1
  end.

(** All the characters of [s] are dots. *)
Fixpoint all_dots (s : string) : bool :=
  match s with
  | EmptyString => true
  | String c s' => Ascii.eqb c "." && all_dots s'
  end.

(** [os.path.splitext(p)] (POSIX): the extension starts at the last dot
    of the last path component, unless that component has only dots in
    front of it. *)
Definition splitext (p : string) : string * string :=
  let sepIndex := rfind "/" p in
  let dotIndex := rfind "." p in
  if sepIndex <? dotIndex then
    let filenameIndex := Z.to_nat (sepIndex + 1) in
    if all_dots (drop_str filenameIndex (take_str (Z.to_nat dotIndex) p))
    then (p, EmptyString)
    else (take_str (Z.to_nat dotIndex) p, drop_str (Z.to_nat dotIndex) p)
  else (p, EmptyString).

End PyStr.

(** ** The fragment of Python's [re] used by the analysis

  Patterns are compiled from their source text, as [re.search] does:
  a backslash followed by [b] is the word-boundary assertion, by [d]
  the digit class, by a non-alphanumeric character that character
  itself; an atom may carry a [+].  Anything else of the regex
  language is outside the fragment and is rejected ([None]). *)
Module Re.
Import PyStr.

Inductive atom : Type :=
| ALit (c : ascii)
| ADigit.

Inductive item : Type :=
| IOne (a : atom)
| IPlus (a : atom)
| IWordB.

Definition backslash : ascii := "\"%char.

(** Characters with a meaning of their own in a pattern. *)
Definition meta_chars : list ascii :=
  [".";"^";"$";"*";"+";"?";"{";"}";"[";"]";"|";"(";")";"\"]%char.
Definition is_meta (c : ascii) : bool := existsb (Ascii.eqb c) meta_chars.

(** [compile p]: the items of pattern [p].  After an atom, a [+]
    turns it into a repetition. *)
Fixpoint compile (p : string) : option (list item) :=
  match p with
  | EmptyString => Some []
  | String c rest =>
      if Ascii.eqb c backslash then
        match rest with
        | EmptyString => None
        | String e rest' =>
            if Ascii.eqb e "b" then cons IWordB <$> compile rest'
            else
              let a := if Ascii.eqb e "d" then Some ADigit
                       else if is_alnum e then None
                       else Some (ALit e) in
              match a, rest' with
              | None, _ => None
              | Some a, String q rest'' =>
                  if Ascii.eqb q "+" then cons (IPlus a) <$> compile rest''
                  else cons (IOne a) <$> compile rest'
              | Some a, EmptyString => cons (IOne a) <$> compile rest'
              end
        end
      else if is_meta c then None
      else
        match rest with
        | String q rest' =>
            if Ascii.eqb q "+" then cons (IPlus (ALit c)) <$> compile rest'
            else cons (IOne (ALit c)) <$> compile rest
        | EmptyString => cons (IOne (ALit c)) <$> compile rest
        end
  end.

Definition atom_matches (a : atom) (c : ascii) : bool :=
  match a with
  | ALit x => Ascii.eqb x c
  | ADigit => is_digit c
  end.

(** [\b]: exactly one of the characters around the position is a word
    character; the ends of the text count as non-word. *)
Definition at_word_boundary (prev : option ascii) (s : string) : bool :=
  let before := match prev with Some c => is_word c | None => false end in
  let after := match s with String c _ => is_word c
                          | EmptyString => false end in
  xorb before after.

(** Does the compiled pattern match at the current position?  [prev]
    is the character just before it. *)
Fixpoint match_here (re : list item) : option ascii -> string -> bool :=
  match re with
  | [] => fun _ _ => true
  | IWordB :: re' =>
      fun prev s => at_word_boundary prev s && match_here re' prev s
  | IOne a :: re' =>
      fun _ s =>
        match s with
        | String c s' => atom_matches a c && match_here re' (Some c) s'
        | EmptyString => false
        end
  | IPlus a :: re' =>
      fix plus (prev : option ascii) (s : string) : bool :=
        match s with
        | String c s' =>
            atom_matches a c && (match_here re' (Some c) s' || plus (Some c) s')
        | EmptyString => false
        end
  end.

Fixpoint search_from (re : list item) (prev : option ascii) (s : string)
  : bool :=
  match_here re prev s ||
  match s with
  | String c s' => search_from re (Some c) s'
  | EmptyString => false
  end.

(** [bool(re.search(pattern, s))]; [None] when the pattern is not in
    the fragment. *)
Definition search (pattern s : string) : option bool :=
  (fun re => search_from re None s) <$> compile pattern.

(** [re.escape]: a backslash in front of every special character. *)
Definition escape_chars : list ascii :=
  ["("; ")"; "["; "]"; "{"; "}"; "?"; "*"; "+"; "-"; "|"; "^"; "$";
   "\"; "."; "&"; "~"; "#"; " "; "009"; "010"; "013"; "011"; "012"]%char.
Definition needs_escape (c : ascii) : bool :=
  existsb (Ascii.eqb c) escape_chars.
Fixpoint escape (s : string) : string :=
  match s with
  | EmptyString => EmptyString
  | String c s' =>
      if needs_escape c then String backslash (String c (escape s'))
      else String c (escape s')
  end.

(** [re.sub(r'[cls]+', '', s)]: deleting every maximal run of class
    characters deletes exactly the class characters. *)
Fixpoint sub_class_plus_empty (cls : list ascii) (s : string) : string :=
  match s with
  | EmptyString => EmptyString
  | String c s' =>
      if existsb (Ascii.eqb c) cls then sub_class_plus_empty cls s'
      else String c (sub_class_plus_empty cls s')
  end.

End Re.

(** ** [src/analyze_repos.py] *)
Module Analyze.
Import PyStr.

(** One entry of [repo_data['config_files']]; [f.get('path', '')]. *)
Record config_file : Type := { cf_path : option string }.

(** The repository record loaded from [repo_data.json]; a field is
    [None] when the key is absent. *)
Record repo_data : Type := {
  rd_languages : option (gmap string Z);
  rd_readme : option string;
  rd_techbragging : option string;
  rd_config_files : option (list config_file);
  rd_services : option (gmap string bool)
}.

(** [config['analysis']['tech_stack']['keywords']] *)
Record config : Type := { tech_stack_keywords : list string }.

(** *** [detect_tech_stack] *)

(** The literal [frameworks] dictionary, in source order. *)
Definition frameworks : list (string * list string) :=
  [ ("react", ["react"; "jsx"; "react-dom"; "react native"; "nextjs"; "next.js"]);
    ("vue", ["vue"; "vuejs"; "vue.js"; "nuxt"]);
    ("angular", ["angular"; "angularjs"; "ng-"]);
    ("django", ["django"; "djangorestframework"]);
    ("flask", ["flask"; "flask-"]);
    ("fastapi", ["fastapi"; "fast-api"]);
    ("express", ["express"; "expressjs"; "express.js"]);
    ("spring", ["spring boot"; "spring framework"]);
    ("aws", ["aws"; "amazon web services"; "s3"; "ec2"; "lambda"; "dynamodb"]);
    ("azure", ["azure"; "microsoft azure"]);
    ("gcp", ["gcp"; "google cloud"; "google cloud platform"]);
    ("kubernetes", ["kubernetes"; "k8s"; "kubectl"]);
    ("docker", ["docker"; "containerization"; "containerised"]);
    ("terraform", ["terraform"; "terragrunt"]);
    ("mongodb", ["mongodb"; "mongo"]);
    ("postgresql", ["postgresql"; "postgres"]);
    ("mysql", ["mysql"]);
    ("redis", ["redis"]);
    ("graphql", ["graphql"; "apollo"]);
    ("tailwind", ["tailwind"; "tailwindcss"; "tailwind css"]);
    ("bootstrap", ["bootstrap css"; "bootstrap framework"]);
    ("webpack", ["webpack"]);
    ("vite", ["vite"]);
    ("jest", ["jest"; "jest testing"]);
    ("cypress", ["cypress"; "cypress.io"]);
    ("github actions", ["github actions"; "github workflow"]) ].

(** [readme + ' ' + techbragging], lowercased. *)
Definition content_of (rd : repo_data) : string :=
  lower (default "" (rd_readme rd) +:+ " " +:+ default "" (rd_techbragging rd)).

(** The pattern text handed to [re.search] for one keyword: the raw
    literal [r'\\b'] is the three characters backslash, backslash, b. *)
Definition keyword_pattern (keyword : string) : string :=
  "\\b" +:+ Re.escape (lower keyword) +:+ "\\b".

(** The condition of the keyword loop.  The pattern of an escaped
    keyword is always in the fragment ([keyword_pattern_compiles]
    below), so the default is never used. *)
Definition keyword_found (keyword content : string) : bool :=
  default false (Re.search (keyword_pattern keyword) content).

(** The inner [for keyword in keywords: if keyword in content: ...;
    break] loop.  Returns whether the technology is added, together
    with the aliases whose containment test was evaluated. *)
Fixpoint alias_loop (aliases : list string) (content : string)
  : bool * list string :=
  match aliases with
  | [] => (false, [])
  | keyword :: rest =>
      if str_in keyword content then (true, [keyword])
      else let '(hit, tested) := alias_loop rest content in
           (hit, keyword :: tested)
  end.

Definition add_languages (rd : repo_data) (tech_stack : gset string)
  : gset string :=
  match rd_languages rd with
  | Some languages =>
      if bool_decide (languages = ∅) then tech_stack
      else foldl (fun ts lang => ts ∪ {[ lower lang ]}) tech_stack
                 (map_to_list languages).*1
  | None => tech_stack
  end.

Definition add_keywords (keywords : list string) (content : string)
           (tech_stack : gset string) : gset string :=
  foldl (fun ts keyword =>
           if keyword_found keyword content
           then ts ∪ {[ lower keyword ]} else ts)
        tech_stack keywords.

Definition add_frameworks (table : list (string * list string))
           (content : string) (tech_stack : gset string) : gset string :=
  foldl (fun ts '(tech, keywords) =>
           if (alias_loop keywords content).1 then ts ∪ {[ tech ]} else ts)
        tech_stack table.

Definition tech_stack_set (rd : repo_data) (cfg : config) : gset string :=
  let tech_stack := add_languages rd ∅ in
  let content := content_of rd in
  let tech_stack := add_keywords (tech_stack_keywords cfg) content tech_stack in
  add_frameworks frameworks content tech_stack.

(** [list(tech_stack)] *)
Definition detect_tech_stack (rd : repo_data) (cfg : config) : list string :=
  elements (tech_stack_set rd cfg).

(** *** [estimate_project_maturity] *)

Definition config_file_paths (rd : repo_data) : list string :=
  (fun f => lower (default "" (cf_path f))) <$> default [] (rd_config_files rd).

Definition is_deploy_path (f : string) : bool :=
  str_in "deploy" f || str_in "production" f || str_in "kubernetes" f
  || str_in "k8s" f || str_in "cloudflare" f.
Definition is_test_path (f : string) : bool :=
  str_in "test" f || str_in "jest" f || str_in "cypress" f || str_in "spec" f.
Definition is_cicd_path (f : string) : bool :=
  str_in ".github/workflows" f || str_in "gitlab-ci" f || str_in "jenkins" f
  || str_in "circleci" f || str_in "travis" f.

Definition deploy_files (rd : repo_data) : list string :=
  List.filter is_deploy_path (config_file_paths rd).
Definition test_files (rd : repo_data) : list string :=
  List.filter is_test_path (config_file_paths rd).
Definition cicd_files (rd : repo_data) : list string :=
  List.filter is_cicd_path (config_file_paths rd).

Definition readme_lower (rd : repo_data) : string :=
  lower (default "" (rd_readme rd)).

Definition contributing_in_paths (rd : repo_data) : bool :=
  list_in "CONTRIBUTING.md" (config_file_paths rd).
Definition changelog_in_paths (rd : repo_data) : bool :=
  list_in "CHANGELOG.md" (config_file_paths rd).

Definition has_contributing (rd : repo_data) : bool :=
  str_in "contributing" (readme_lower rd) || contributing_in_paths rd.
Definition has_changelog (rd : repo_data) : bool :=
  str_in "changelog" (readme_lower rd) || changelog_in_paths rd.
Definition has_version (rd : repo_data) : bool :=
  default false (Re.search "version \d+\.\d+" (readme_lower rd)).

Definition has_monitoring (rd : repo_data) : bool :=
  default false (default ∅ (rd_services rd) !! "sentry").
Definition has_security (rd : repo_data) : bool :=
  default false (default ∅ (rd_services rd) !! "snyk").

(** The six assignments of the decision chain, by source line. *)
Inductive assignment : Type :=
| Line158 | Line160 | Line162 | Line164 | Line166 | Line168.

Definition decision (rd : repo_data) : assignment :=
  if list_truthy (deploy_files rd) && list_truthy (test_files rd)
     && list_truthy (cicd_files rd) && has_version rd
  then
    if has_contributing rd && has_changelog rd
       && has_monitoring rd && has_security rd
    then Line158
    else if list_truthy (deploy_files rd) then Line160
    else Line162
  else if negb (list_truthy (deploy_files rd))
          && negb (list_truthy (test_files rd))
          && str_in "archived" (readme_lower rd)
  then Line164
  else if list_truthy (deploy_files rd) then Line166
  else Line168.

Definition estimate_project_maturity (rd : repo_data) : string :=
  let maturity := "Unknown" in
  match decision rd with
  | Line158 => "Production-Ready"
  | Line160 => "Beta"
  | Line162 => "Alpha"
  | Line164 => "Legacy"
  | Line166 => "Beta"
  | Line168 => "Alpha"
  end.

(** *** Summary extraction in [analyze_repositories] *)

Definition markdown_chars : list ascii := ["#"; "*"; "`"; "_"]%char.

(** The paragraph the summary is taken from. *)
Definition first_paragraph (paragraphs : list string) : string :=
  let first_paragraph := nth 0 paragraphs "" in
  if startswith "#" first_paragraph then
    if (1 <? length paragraphs)%nat then nth 1 paragraphs "" else ""
  else first_paragraph.

Definition clean_up_markdown (paragraph : string) : string :=
  strip (Re.sub_class_plus_empty markdown_chars paragraph).

Definition truncate (summary : string) : string :=
  if (200 <? String.length summary)%nat
  then take_str 197 summary +:+ "..."
  else summary.

Definition extract_summary (rd : repo_data) : string :=
  let readme := default "" (rd_readme rd) in
  let summary := "" in
  if str_truthy readme then
    let paragraphs := split (LF +:+ LF) readme in
    if list_truthy paragraphs then
      truncate (clean_up_markdown (first_paragraph paragraphs))
    else summary
  else summary.

(** *** The derived fields of one record of [analyze_repositories] *)

Record repo_analysis : Type := {
  ra_tech_stack : list string;
  ra_languages : gmap string Z;
  ra_services : gmap string bool;
  ra_maturity : string;
  ra_summary : string
}.

(** The body of the loop over the repositories, for a record that was
    loaded; the base fields (org, name, description, url, dates,
    homepage) are copied through and left out here. *)
Definition analyze_repository (rd : repo_data) (cfg : config) : repo_analysis :=
  {| ra_tech_stack := detect_tech_stack rd cfg;
     ra_languages := default ∅ (rd_languages rd);
     ra_services := default ∅ (rd_services rd);
     ra_maturity := estimate_project_maturity rd;
     ra_summary := extract_summary rd |}.

End Analyze.

(** ** [src/utils/github.py] *)
Module Github.
Import PyStr.

(** One entry of [config_files]; [file_meta['path']] raises [KeyError]
    when the key is absent. *)
Record file_meta : Type := { fm_path : option string }.

(** What [run_gh_cmd] gives back for an API path: the call fails, or
    the JSON answer is an object, or a list of entries. *)
Inductive gh_answer : Type :=
| GhFails
| GhObject
| GhList (entries : list string).

(** The remote repository as the scanner sees it:
    [get_file_content(org, repo, path)] (it swallows every error and
    returns [None]) and the answer for [contents/.github/workflows]. *)
Record remote : Type := {
  get_file_content : string -> option string;
  workflows_listing : gh_answer
}.

Definition github_actions : string := "github actions".

(** [{service: False for service in service_keywords}] *)
Definition init_services (service_keywords : list string)
  : gmap string bool :=
  foldl (fun services service => <[service := false]> services)
        ∅ service_keywords.

(** The inner loop over the vocabulary for one fetched content. *)
Definition scan_content (service_keywords : list string)
           (content_lower : string) (services : gmap string bool)
  : gmap string bool :=
  foldl (fun services service =>
           if str_in (lower service) content_lower
           then <[service := true]> services else services)
        services service_keywords.

(** One iteration of [for file_meta in config_files]; the [try] turns
    a missing path into a skipped file. *)
Definition scan_file (r : remote) (service_keywords : list string)
           (services : gmap string bool) (fm : file_meta)
  : gmap string bool :=
  match fm_path fm with
  | None => services
  | Some path =>
      match get_file_content r path with
      | Some content =>
          if str_truthy content
          then scan_content service_keywords (lower content) services
          else services
      | None => services
      end
  end.

(** The special check for GitHub Actions. *)
Definition workflows_check (r : remote) (services : gmap string bool)
  : gmap string bool :=
  match workflows_listing r with
  | GhList (_ :: _) => <[github_actions := true]> services
  | _ => services
  end.

Definition detect_services (r : remote) (config_files : list file_meta)
           (service_keywords : list string) : gmap string bool :=
  let services := init_services service_keywords in
  let services := foldl (scan_file r service_keywords) services config_files in
  workflows_check r services.

(** *** Listings: [find_config_files], [list_repositories],
    [get_repository_contributors] *)

(** What [run_gh_cmd] gives back for a listing call: the command fails
    (an exception), or the JSON answer is an object (with at least one
    key), or a list of entries. *)
Inductive api_answer (A : Type) : Type :=
| ApiFails
| ApiObject
| ApiList (entries : list A).
Arguments ApiFails {A}.
Arguments ApiObject {A}.
Arguments ApiList {A} entries.

(** One entry of a repository contents listing. *)
Record content_item : Type := {
  item_type : string;
  item_name : string;
  item_path : string;
  item_url : string
}.

Definition default_extensions : list string :=
  [".toml"; ".yaml"; ".yml"; ".json"].

Definition scanned_directories : list string :=
  [".github"; "config"; "configs"].

(** [_, ext = os.path.splitext(name)]; [ext in extensions] *)
Definition has_extension (extensions : list string) (name : string) : bool :=
  list_in (splitext name).2 extensions.

(** The body of the loop over the entries of one of the scanned
    directories. *)
Definition keep_dir_item (extensions : list string)
           (config_files : list content_item) (dir_item : content_item)
  : list content_item :=
  if String.eqb (item_type dir_item) "file" then
    if has_extension extensions (item_name dir_item)
    then config_files ++ [dir_item] else config_files
  else config_files.

(** The inner [try]: a listing that fails, or that is not a list of
    entries, leaves [config_files] as it is. *)
Definition scan_directory (api : string -> api_answer content_item)
           (extensions : list string) (config_files : list content_item)
           (item : content_item) : list content_item :=
  match api (item_url item) with
  | ApiList dir_contents =>
      foldl (keep_dir_item extensions) config_files dir_contents
  | _ => config_files
  end.

(** The body of the loop over the top-level entries. *)
Definition scan_item (api : string -> api_answer content_item)
           (extensions : list string) (config_files : list content_item)
           (item : content_item) : list content_item :=
  if String.eqb (item_type item) "file" then
    if has_extension extensions (item_name item)
    then config_files ++ [item] else config_files
  else if String.eqb (item_type item) "dir"
          && list_in (item_name item) scanned_directories
  then scan_directory api extensions config_files item
  else config_files.

Definition contents_path (org repo : string) : string :=
  "repos/" +:+ org +:+ "/" +:+ repo +:+ "/contents".

(** [find_config_files(org, repo, extensions)]; [api] answers the
    listing calls, by API path or URL.  The outer [try] turns a failing
    top-level listing, or one that is not a list of entries, into []. *)
Definition find_config_files (api : string -> api_answer content_item)
           (org repo : string) (extensions : option (list string))
  : list content_item :=
  let extensions := default default_extensions extensions in
  match api (contents_path org repo) with
  | ApiList result => foldl (scan_item api extensions) [] result
  | _ => []
  end.

(** One entry of [gh repo list --json ...]; [r['name']] is needed, the
    other fields are read with [get]. *)
Record repo_info : Type := {
  repo_name : string;
  repo_url : option string;
  repo_createdAt : option string;
  repo_updatedAt : option string
}.

(** [config['repository_filter']] *)
Record repository_filter : Type := {
  use_include_list : option bool;
  include_list : option (list string);
  exclude_list : option (list string)
}.

(** [list_repositories(org, config)]; [None] stands for the exception
    of a failing command, or of an answer that is not a list of
    repositories, which the function lets through. *)
Definition list_repositories (answer : api_answer repo_info)
           (rf : repository_filter) : option (list repo_info) :=
  match answer with
  | ApiList repos =>
      let repos :=
        if default false (use_include_list rf)
        then List.filter (fun r => list_in (repo_name r)
                                     (default [] (include_list rf))) repos
        else repos in
      Some (List.filter (fun r => negb (list_in (repo_name r)
                                          (default [] (exclude_list rf)))) repos)
  | _ => None
  end.

(** [get_repository_contributors]: [result[:max_contributors]], with 50
    when the configuration has no such key; every exception (a failing
    command, an answer that cannot be sliced) gives []. *)
Definition get_repository_contributors {A} (answer : api_answer A)
           (max_contributors : option Z) : list A :=
  match answer with
  | ApiList result => slice_to (default 50 max_contributors) result
  | _ => []
  end.

End Github.

(** ** [src/extract_data.py] *)
Module Extract.
Import PyStr.

(** The remote repository as [extract_repo_data] sees it. *)
Record repo_remote : Type := {
  gh : Github.remote;
  listings : string -> Github.api_answer Github.content_item;
  languages_answer : option (gmap string Z)
}.

(** [x or y] on optional contents: the first one that is a non-empty
    text. *)
Definition content_truthy (c : option string) : bool :=
  match c with Some s => str_truthy s | None => false end.

(** The README lookup: three spellings in turn, then [or ""]. *)
Definition fetch_readme (rm : repo_remote) : string :=
  let readme_content := Github.get_file_content (gh rm) "README.md" in
  let readme_content :=
    if content_truthy readme_content then readme_content
    else Github.get_file_content (gh rm) "readme.md" in
  let readme_content :=
    if content_truthy readme_content then readme_content
    else Github.get_file_content (gh rm) "Readme.md" in
  if content_truthy readme_content then default "" readme_content else "".

Definition fetch_techbragging (rm : repo_remote) : string :=
  let techbragging_content := Github.get_file_content (gh rm) "techbragging.md" in
  let techbragging_content :=
    if content_truthy techbragging_content then techbragging_content
    else Github.get_file_content (gh rm) "TECHBRAGGING.md" in
  if content_truthy techbragging_content
  then default "" techbragging_content else "".

Definition file_meta_of (item : Github.content_item) : Github.file_meta :=
  {| Github.fm_path := Some (Github.item_path item) |}.

Definition config_file_of (item : Github.content_item) : Analyze.config_file :=
  {| Analyze.cf_path := Some (Github.item_path item) |}.

(** The fields of the record written by [extract_repo_data] that the
    analysis reads.  [service_keywords] is
    [config['analysis']['services']['keywords']]; when the key is
    missing, the [except] branch resets both [config_files] and
    [services]. *)
Definition extract_repo_data (rm : repo_remote) (org repo_name : string)
           (service_keywords : option (list string)) : Analyze.repo_data :=
  let languages := default ∅ (languages_answer rm) in
  let readme := fetch_readme rm in
  let techbragging := fetch_techbragging rm in
  let found := Github.find_config_files (listings rm) org repo_name None in
  let '(config_files, services) :=
    match service_keywords with
    | Some keywords =>
        (found, Github.detect_services (gh rm) (file_meta_of <$> found) keywords)
    | None => ([], ∅)
    end in
  {| Analyze.rd_languages := Some languages;
     Analyze.rd_readme := Some readme;
     Analyze.rd_techbragging := Some techbragging;
     Analyze.rd_config_files := Some (config_file_of <$> config_files);
     Analyze.rd_services := Some services |}.

End Extract.

(** ** [src/generate_reports.py] *)
Module Reports.
Import PyStr.

(** A processed repository record; [repo.get('tech_stack', [])]. *)
Record repository : Type := { tech_stack : option (list string) }.

(** [tech_counts[tech] += 1] when the key is present, a new entry at
    the end of the insertion-ordered dictionary otherwise. *)
Fixpoint count_tech (tech : string) (tech_counts : list (string * Z))
  : list (string * Z) :=
  match tech_counts with
  | [] => [(tech, 1)]
  | (t, c) :: rest =>
      if String.eqb t tech then (t, c + 1) :: rest
      else (t, c) :: count_tech tech rest
  end.

Definition count_repo (tech_counts : list (string * Z)) (repo : repository)
  : list (string * Z) :=
  foldl (fun tc tech => count_tech tech tc) tech_counts
        (default [] (tech_stack repo)).

Definition tech_counts (repositories : list repository) : list (string * Z) :=
  foldl count_repo [] repositories.

(** [sorted(items, key=lambda x: x[1], reverse=True)]: a stable sort by
    decreasing count.  An item is placed in front of the first item
    whose count is not larger, so that equal counts keep their order. *)
Fixpoint insert_desc (x : string * Z) (l : list (string * Z))
  : list (string * Z) :=
  match l with
  | [] => [x]
  | y :: l' => if x.2 <? y.2 then y :: insert_desc x l' else x :: l
  end.
Definition sorted_by_count_desc (items : list (string * Z))
  : list (string * Z) :=
  foldr insert_desc [] items.

Definition ranked_technologies (repositories : list repository)
  : list (string * Z) :=
  sorted_by_count_desc (tech_counts repositories).

Definition get_top_technologies (repositories : list repository)
           (top_n : Z) : list (string * Z) :=
  slice_to top_n (ranked_technologies repositories).

(** *** [extract_readme_summary], [extract_techbragging_summary] *)

(** [.replace('#', '').replace('*', '').replace('`', '').strip()] *)
Definition strip_markup (paragraph : string) : string :=
  strip (replace "`" "" (replace "*" "" (replace "#" "" paragraph))).

(** The summary of a README or tech-bragging text, as both functions
    compute it inside their [try]. *)
Definition text_summary (text : string) : string :=
  if str_truthy text then
    let paragraphs := split (LF +:+ LF) text in
    if list_truthy paragraphs then
      let summary := strip_markup (Analyze.first_paragraph paragraphs) in
      if (200 <? String.length summary)%nat
      then take_str 197 summary +:+ "..."
      else summary
    else ""
  else "".

(** A processed record as the report generator reads it; a field is
    [None] when the key is absent. *)
Record report_entry : Type := {
  re_org : option string;
  re_name : option string;
  re_summary : option string;
  re_homepage : option string;
  re_screenshot : option string
}.

(** [load org name] is the content of [raw/org/name/repo_data.json],
    [None] when opening or decoding it fails.  The result [None] of the
    two functions stands for the [KeyError] of a missing ['org'] or
    ['name'], raised before the [try]. *)
Definition extract_readme_summary (repo : report_entry)
           (load : string -> string -> option Analyze.repo_data)
  : option string :=
  match re_summary repo with
  | Some summary => Some summary
  | None =>
      match re_org repo, re_name repo with
      | Some org, Some name =>
          Some match load org name with
               | Some repo_data =>
                   text_summary (default "" (Analyze.rd_readme repo_data))
               | None => ""
               end
      | _, _ => None
      end
  end.


(** *** The project selection of [generate_portfolio] *)

Record project : Type := {
  project_name : string;
  project_homepage : string;
  project_summary : string;
  project_screenshot : string
}.

(** [len(repo.get('summary', '')) > 10 or repo.get('homepage')] *)
Definition in_portfolio (repo : report_entry) : bool :=
  (10 <? String.length (default "" (re_summary repo)))%nat
  || str_truthy (default "" (re_homepage repo)).

(** The dictionary appended for a selected repository; [repo['name']]
    raises [KeyError] when the key is missing. *)
Definition project_of (repo : report_entry) : option project :=
  match re_name repo with
  | Some name =>
      Some {| project_name := name;
              project_homepage := default "" (re_homepage repo);
              project_summary := default "" (re_summary repo);
              project_screenshot :=
                replace "visuals/" "" (default "" (re_screenshot repo)) |}
  | None => None
  end.

(** The loop that fills [portfolio["projects"]]; [None] when it raises. *)
Fixpoint portfolio_projects (repositories : list report_entry)
  : option (list project) :=
  match repositories with
  | [] => Some []
  | repo :: rest =>
      if in_portfolio repo then
        match project_of repo with
        | Some p => cons p <$> portfolio_projects rest
        | None => None
        end
      else portfolio_projects rest
  end.

(** [project["name"].lower().replace(" ", "_")], the stem of the page
    written for a project. *)
Definition project_filename (p : project) : string :=
  replace " " "_" (lower (project_name p)).

End Reports.

(** ** [src/utils/visualization.py]: the aggregation loops *)
Module Visualization.
Import PyStr.





End Visualization.

(** * Vocabulary of the properties

    Definitions used to state and prove the properties; they are not
    part of the program. *)

Import PyStr Analyze Github Reports.

(** ** Regular expressions *)

(** The compiled form of a text without any regex operator. *)
Fixpoint literal_items (s : string) : list Re.item :=
  match s with
  | EmptyString => []
  | String c s' => Re.IOne (Re.ALit c) :: literal_items s'
  end.

Definition starts_with_plus (s : string) : bool :=
  match s with
  | String q _ => Ascii.eqb q "+"
  | EmptyString => false
  end.

Fixpoint has_char (c : ascii) (s : string) : bool :=
  match s with
  | EmptyString => false
  | String d s' => Ascii.eqb c d || has_char c s'
  end.

(** The pattern with a real word-boundary assertion, [r'\b' + ... + r'\b']. *)
Definition word_boundary_pattern (keyword : string) : string :=
  "\b" +:+ Re.escape (lower keyword) +:+ "\b".

(** ** Service scanning *)

(** The workflows listing is a list with at least one entry. *)
Definition workflows_present (r : remote) : bool :=
  match workflows_listing r with
  | GhList (_ :: _) => true
  | _ => false
  end.

(** Evidence for a service in one configuration file: its content was
    fetched, is not empty and contains the lowercased keyword. *)
Definition file_evidence (r : remote) (service : string) (fm : file_meta) : bool :=
  match fm_path fm with
  | Some path =>
      match get_file_content r path with
      | Some content => str_truthy content && str_in (lower service) (lower content)
      | None => false
      end
  | None => false
  end.

Definition evidence (r : remote) (config_files : list file_meta)
           (service : string) : bool :=
  existsb (file_evidence r service) config_files.

(** ** Technology ranking *)

(** Every tag occurrence of every record, in the order the loops visit them. *)
Definition all_tags (repositories : list repository) : list string :=
  concat ((fun repo => default [] (tech_stack repo)) <$> repositories).

(** Position of the first occurrence of [t], the length when absent. *)
Fixpoint first_index (t : string) (tags : list string) : nat :=
  match tags with
  | [] => 0
  | x :: tags' => if decide (x = t) then 0 else S (first_index t tags')
  end.

(** Number of occurrences of [t]. *)
Definition occurrences (t : string) (tags : list string) : Z :=
  Z.of_nat (length (filter (fun x => x = t) tags)).

(** [x] was first encountered before [y]. *)
Definition seen_before (tags : list string) (x y : string * Z) : Prop :=
  (first_index x.1 tags < first_index y.1 tags)%nat.

(** Larger count first; for equal counts, the order [before]. *)
Definition ranks_before (before : relation (string * Z))
           (x y : string * Z) : Prop :=
  y.2 < x.2 \/ (x.2 = y.2 /\ before x y).

(** Higher count first, first-seen tag first among equal counts. *)
Definition ranked_before (tags : list string) : relation (string * Z) :=
  ranks_before (seen_before tags).

(** The counting loop over a flat list of tags. *)
Definition count_all (tags : list string) : list (string * Z) :=
  foldl (fun tc tech => count_tech tech tc) [] tags.

(** The effect of counting a tag that is already a key. *)
Definition bump (t : string) (kc : string * Z) : string * Z :=
  (kc.1, if decide (kc.1 = t) then kc.2 + 1 else kc.2).

(** What the counting loop has built after the tags [tags]. *)
Record counted (tags : list string) (tc : list (string * Z)) : Prop := {
  counted_nodup : NoDup tc.*1;
  counted_keys : forall t, t ∈ tc.*1 <-> t ∈ tags;
  counted_values : forall t c, (t, c) ∈ tc -> c = occurrences t tags;
  counted_order : StronglySorted (seen_before tags) tc
}.

(** * Example inputs *)

(** The configuration paths and service flags of the maturity examples. *)
Definition spec_paths : list config_file :=
  [ {| cf_path := Some "kubernetes/deploy.yaml" |};
    {| cf_path := Some "tests/unit.spec.js" |};
    {| cf_path := Some ".github/workflows/ci.yml" |} ].

Definition spec_services : gmap string bool :=
  {[ "sentry" := true; "snyk" := true ]}.

Definition repo_with_readme (readme : string) : repo_data :=
  {| rd_languages := None; rd_readme := Some readme;
     rd_techbragging := None; rd_config_files := Some spec_paths;
     rd_services := Some spec_services |}.

Definition production_repo : repo_data :=
  repo_with_readme "Version 2.0. See CONTRIBUTING and the Changelog.".

Definition beta_repo : repo_data :=
  repo_with_readme "Version 2.0. See the Changelog.".

(** A record with languages and a README only. *)
Definition no_extras (languages : gmap string Z) (readme : string) : repo_data :=
  {| rd_languages := Some languages; rd_readme := Some readme;
     rd_techbragging := None; rd_config_files := None; rd_services := None |}.

Definition react_repo : repo_data :=
  no_extras {[ "JavaScript" := 10 ]} "Built with JSX on Next.js and React-DOM".

Definition react_aliases : list string :=
  ["react"; "jsx"; "react-dom"; "react native"; "nextjs"; "next.js"].

(** A corpus with the standalone word go, and one with going only. *)
Definition go_repo : repo_data :=
  {| rd_languages := Some ∅; rd_readme := Some "We use Go here";
     rd_techbragging := Some ""; rd_config_files := Some [];
     rd_services := Some ∅ |}.

Definition going_repo : repo_data :=
  {| rd_languages := Some ∅; rd_readme := Some "We are going there";
     rd_techbragging := Some ""; rd_config_files := Some [];
     rd_services := Some ∅ |}.

Definition go_config : config := {| tech_stack_keywords := ["Go"] |}.

(** A repository without fetchable files whose workflows directory
    lists one workflow. *)
Definition remote_with_workflows : remote :=
  {| get_file_content := fun _ => None;
     workflows_listing := GhList ["ci.yml"] |}.

Fixpoint repeat_str (s : string) (n : nat) : string :=
  match n with
  | O => EmptyString
  | S n' => s +:+ repeat_str s n'
  end.

Definition readme_of (readme : string) : repo_data :=
  {| rd_languages := None; rd_readme := Some readme;
     rd_techbragging := None; rd_config_files := None; rd_services := None |}.

(** A 250-character paragraph of snake-case words, and one of plain
    words. *)
Definition snake_paragraph : string := repeat_str "a_b_c" 50.

Definition plain_paragraph : string := repeat_str "lorem" 50.

Definition headed_readme (paragraph : string) : string :=
  "# Title" +:+ LF +:+ LF +:+ paragraph +:+ LF +:+ LF +:+ "More text.".

Definition tagged (tags : list string) : repository :=
  {| tech_stack := Some tags |}.

(** Counts a:3, b:3, c:1, with [a] seen first, and with [b] seen first. *)
Definition a_first : list repository :=
  [tagged ["a"; "b"; "c"]; tagged ["b"; "a"]; {| tech_stack := None |};
   tagged ["a"; "b"]].

Definition b_first : list repository :=
  [tagged ["b"; "c"; "a"]; tagged ["a"; "b"]; tagged ["a"; "b"]].

(** A text that does not start with a whitespace character. *)
Definition no_leading_space (s : string) : Prop :=
  match s with
  | String c _ => is_space c = false
  | EmptyString => True
  end.

(** The entries of a listing, none when the call fails or the answer
    is not a list. *)
Definition listing_entries {A} (answer : api_answer A) : list A :=
  match answer with
  | ApiList entries => entries
  | _ => []
  end.

(** The test of the two loops for a file entry. *)
Definition is_config_file (extensions : list string) (item : content_item) : bool :=
  String.eqb (item_type item) "file"
  && has_extension extensions (item_name item).

(** The test for a directory that is looked into. *)
Definition is_scanned_dir (item : content_item) : bool :=
  String.eqb (item_type item) "dir"
  && list_in (item_name item) scanned_directories.

(** What one top-level entry contributes. *)
Definition found_at (api : string -> api_answer content_item)
           (extensions : list string) (item : content_item)
  : list content_item :=
  if String.eqb (item_type item) "file" then
    if has_extension extensions (item_name item) then [item] else []
  else if is_scanned_dir item
  then List.filter (is_config_file extensions)
                   (listing_entries (api (item_url item)))
  else [].

(** A repository with one configuration file and a .github directory,
    whose listing fails in the first remote and is empty in the second. *)
Definition example_top : list content_item :=
  [ {| item_type := "file"; item_name := "app.yml"; item_path := "app.yml";
       item_url := "contents/app.yml" |};
    {| item_type := "dir"; item_name := ".github"; item_path := ".github";
       item_url := "contents/.github" |} ].

Definition failing_dirs (u : string) : api_answer content_item :=
  if String.eqb u (contents_path "org" "repo") then ApiList example_top
  else ApiFails.

Definition empty_dirs (u : string) : api_answer content_item :=
  if String.eqb u (contents_path "org" "repo") then ApiList example_top
  else ApiList [].

(** A repository whose configuration mentions both services. *)
Definition monitored_remote : remote :=
  {| get_file_content := fun path =>
       if String.eqb path "kubernetes/deploy.yaml"
       then Some "sentry_dsn: x, SNYK_TOKEN: y" else None;
     workflows_listing := GhFails |}.

Definition monitored_files : list file_meta :=
  [ {| fm_path := Some "kubernetes/deploy.yaml" |} ].

Definition monitored_repo : repo_data :=
  {| rd_languages := None;
     rd_readme := Some "Version 2.0. See CONTRIBUTING and the Changelog.";
     rd_techbragging := None; rd_config_files := Some spec_paths;
     rd_services := Some (detect_services monitored_remote monitored_files
                            ["sentry"; "snyk"]) |}.

Definition unreachable_remote : Extract.repo_remote :=
  {| Extract.gh := monitored_remote;
     Extract.listings := fun _ => ApiFails;
     Extract.languages_answer := None |}.

(** The number of records whose tag list contains [t]. *)
Definition users_of (t : string) (repositories : list repository) : Z :=
  Z.of_nat (length (List.filter
                      (fun repo => bool_decide (t ∈ default [] (tech_stack repo)))
                      repositories)).

(** The processed record of an analysed repository, as far as the
    ranking reads it. *)
Definition processed (cfg : config) (rd : repo_data) : repository :=
  {| tech_stack := Some (ra_tech_stack (analyze_repository rd cfg)) |}.

(** Replacing every space by an underscore, character by character. *)
Definition underscore_char (c : ascii) : ascii :=
  if Ascii.eqb c " " then "_"%char else c.

Fixpoint map_chars (f : ascii -> ascii) (s : string) : string :=
  match s with
  | EmptyString => EmptyString
  | String c s' => String (f c) (map_chars f s')
  end.







(** * Properties *)

(** ** Facts about the string primitives *)
Section StringFacts.

Lemma lower_char_not_upper (c : ascii) : is_upper (lower_char c) = false.
Proof. destruct c as [[] [] [] [] [] [] [] []]; reflexivity. Qed.

(** A lowercased string never equals a text that starts with a capital. *)
Lemma lower_neq_capitalised (s : string) (c : ascii) (name : string) :
  is_upper c = true -> lower s <> String c name.
Proof.
  intros Hc Heq. destruct s as [|a s]; simpl in Heq; [discriminate|].
  injection Heq as Ha _.
  pose proof (lower_char_not_upper a) as Hlow.
  rewrite Ha, Hc in Hlow. discriminate.
Qed.

Lemma list_in_lowered_capitalised {A} (f : A -> string) (l : list A)
      (c : ascii) (name : string) :
  is_upper c = true ->
  list_in (String c name) ((fun x => lower (f x)) <$> l) = false.
Proof.
  intros Hc. unfold list_in.
  induction l as [|x l IH]; [reflexivity|].
  rewrite fmap_cons. cbn [existsb]. rewrite IH, orb_false_r.
  apply String.eqb_neq. intros Heq. symmetry in Heq.
  exact (lower_neq_capitalised _ _ _ Hc Heq).
Qed.

End StringFacts.

(** ** The maturity estimator *)
Section Maturity.

(** The version pattern is in the regex fragment. *)
Lemma version_pattern_compiles :
  Re.compile "version \d+\.\d+"
  = Some (literal_items "version "
          ++ [Re.IPlus Re.ADigit; Re.IOne (Re.ALit "."); Re.IPlus Re.ADigit]).
Proof. reflexivity. Qed.

Lemma capitalised_name_not_in_paths (rd : repo_data) (c : ascii) (name : string) :
  is_upper c = true -> list_in (String c name) (config_file_paths rd) = false.
Proof. intros Hc. unfold config_file_paths. by apply list_in_lowered_capitalised. Qed.

(** The [else] assignment of line 162 is dead code. *)
Lemma decision_never_line162 (rd : repo_data) : decision rd <> Line162.
Proof.
  unfold decision.
  destruct (list_truthy (deploy_files rd)); simpl;
    repeat (match goal with |- context [if ?b then _ else _] => destruct b end;
            simpl; try discriminate).
Qed.

(** C2: when the deploy, test, CI/CD and version signals all hold but
    the conjunction of contributing, changelog, monitoring and
    security does not, the estimator returns Beta (assigned on line
    160), never Alpha; the Alpha assignment of the inner [else]
    (line 162) is reached for no input at all. *)
Theorem C2_inner_branch_is_beta (rd : repo_data) :
  list_truthy (deploy_files rd) = true ->
  list_truthy (test_files rd) = true ->
  list_truthy (cicd_files rd) = true ->
  has_version rd = true ->
  has_contributing rd && has_changelog rd
    && has_monitoring rd && has_security rd = false ->
  estimate_project_maturity rd = "Beta"
  /\ estimate_project_maturity rd <> "Alpha"
  /\ decision rd = Line160
  /\ forall rd' : repo_data, decision rd' <> Line162.
Proof.
  intros Hd Ht Hc Hv Hinner.
  assert (Hdec : decision rd = Line160).
  { unfold decision. by rewrite Hd, Ht, Hc, Hv, Hinner. }
  unfold estimate_project_maturity. rewrite Hdec.
  repeat split; try discriminate. apply decision_never_line162.
Qed.

Lemma C2_witness :
  (list_truthy (deploy_files beta_repo) = true
   /\ list_truthy (test_files beta_repo) = true
   /\ list_truthy (cicd_files beta_repo) = true
   /\ has_version beta_repo = true
   /\ has_contributing beta_repo && has_changelog beta_repo
      && has_monitoring beta_repo && has_security beta_repo = false)
  /\ estimate_project_maturity beta_repo = "Beta".
Proof.
  split; [repeat split; vm_compute; reflexivity|].
  apply (C2_inner_branch_is_beta beta_repo); vm_compute; reflexivity.
Defined.

(** C4: when the deploy, test, CI/CD and version signals all hold and
    has_contributing, has_changelog, the sentry flag and the snyk flag
    are all true, the estimator returns Production-Ready. *)
Theorem C4_production_ready (rd : repo_data) :
  list_truthy (deploy_files rd) = true ->
  list_truthy (test_files rd) = true ->
  list_truthy (cicd_files rd) = true ->
  has_version rd = true ->
  has_contributing rd = true ->
  has_changelog rd = true ->
  default ∅ (rd_services rd) !! "sentry" = Some true ->
  default ∅ (rd_services rd) !! "snyk" = Some true ->
  estimate_project_maturity rd = "Production-Ready".
Proof.
  intros Hd Ht Hc Hv Hco Hch Hm Hs.
  unfold estimate_project_maturity, decision, has_monitoring, has_security.
  by rewrite Hd, Ht, Hc, Hv, Hco, Hch, Hm, Hs.
Qed.

Lemma C4_witness :
  (list_truthy (deploy_files production_repo) = true
   /\ list_truthy (test_files production_repo) = true
   /\ list_truthy (cicd_files production_repo) = true
   /\ has_version production_repo = true
   /\ has_contributing production_repo = true
   /\ has_changelog production_repo = true
   /\ default ∅ (rd_services production_repo) !! "sentry" = Some true
   /\ default ∅ (rd_services production_repo) !! "snyk" = Some true)
  /\ estimate_project_maturity production_repo = "Production-Ready".
Proof.
  split; [repeat split; vm_compute; reflexivity|].
  apply (C4_production_ready production_repo); vm_compute; reflexivity.
Defined.

(** C5: for every repository record the estimator returns one of the
    four values Alpha, Beta, Production-Ready, Legacy; the initial
    value Unknown is never returned. *)
Theorem C5_maturity_enumerated (rd : repo_data) :
  estimate_project_maturity rd ∈ ["Alpha"; "Beta"; "Production-Ready"; "Legacy"]
  /\ estimate_project_maturity rd <> "Unknown".
Proof.
  unfold estimate_project_maturity.
  destruct (decision rd); split; try discriminate;
    repeat first [apply list_elem_of_here | apply list_elem_of_further].
Qed.

(** C10: the path clause of has_contributing, which looks for the
    text CONTRIBUTING.md among the lowercased paths, is false for
    every path list, so has_contributing holds exactly when the
    lowercased README contains contributing; the same goes for
    CHANGELOG.md and has_changelog. *)
Theorem C10_path_clause_never_fires (rd : repo_data) :
  contributing_in_paths rd = false
  /\ changelog_in_paths rd = false
  /\ has_contributing rd = str_in "contributing" (readme_lower rd)
  /\ has_changelog rd = str_in "changelog" (readme_lower rd).
Proof.
  assert (H1 : contributing_in_paths rd = false)
    by (by apply capitalised_name_not_in_paths).
  assert (H2 : changelog_in_paths rd = false)
    by (by apply capitalised_name_not_in_paths).
  unfold has_contributing, has_changelog.
  rewrite H1, H2, !orb_false_r. done.
Qed.

End Maturity.

(** ** The tech-stack detector *)
Section Detector.

Lemma add_keywords_mono (keywords : list string) (content : string)
      (ts : gset string) :
  ts ⊆ add_keywords keywords content ts.
Proof.
  unfold add_keywords. revert ts.
  induction keywords as [|k keywords IH]; intros ts; [done|].
  simpl. etrans; [|apply IH]. destruct (keyword_found k content); set_solver.
Qed.

Lemma add_frameworks_mono (table : list (string * list string))
      (content : string) (ts : gset string) :
  ts ⊆ add_frameworks table content ts.
Proof.
  unfold add_frameworks. revert ts.
  induction table as [|[tech aliases] table IH]; intros ts; [done|].
  simpl. etrans; [|apply IH].
  destruct (alias_loop aliases content).1; set_solver.
Qed.

Lemma fold_languages_mono (langs : list string) (ts : gset string) :
  ts ⊆ foldl (fun ts lang => ts ∪ {[ lower lang ]}) ts langs.
Proof.
  revert ts. induction langs as [|l langs IH]; intros ts; [done|].
  simpl. etrans; [|apply IH]. set_solver.
Qed.

Lemma fold_languages_elem (langs : list string) (ts : gset string) (k : string) :
  k ∈ langs -> lower k ∈ foldl (fun ts lang => ts ∪ {[ lower lang ]}) ts langs.
Proof.
  revert ts. induction langs as [|l langs IH]; intros ts Hk.
  - by apply elem_of_nil in Hk.
  - apply elem_of_cons in Hk as [->|Hk]; simpl.
    + apply fold_languages_mono. set_solver.
    + by apply IH.
Qed.

Lemma add_languages_elem (rd : repo_data) (languages : gmap string Z)
      (k : string) (ts : gset string) :
  rd_languages rd = Some languages ->
  is_Some (languages !! k) ->
  lower k ∈ add_languages rd ts.
Proof.
  intros Hl [v Hv]. unfold add_languages. rewrite Hl.
  case_bool_decide as He; [by rewrite He, lookup_empty in Hv|].
  apply fold_languages_elem.
  apply list_elem_of_fmap. exists (k, v). split; [done|].
  by apply elem_of_map_to_list.
Qed.

(** The result of the alias loop: it reports a hit exactly when some
    alias is contained in the content, and then it has tested the
    aliases up to the first contained one and none after it. *)
Lemma alias_loop_first_hit (aliases : list string) (content a : string) :
  a ∈ aliases -> str_in a content = true ->
  exists pre hit post,
    aliases = pre ++ hit :: post
    /\ Forall (fun k => str_in k content = false) pre
    /\ str_in hit content = true
    /\ alias_loop aliases content = (true, pre ++ [hit]).
Proof.
  induction aliases as [|k aliases IH]; intros Ha Hin.
  - by apply elem_of_nil in Ha.
  - simpl. destruct (str_in k content) eqn:Hk.
    + exists [], k, aliases. by repeat split.
    + apply elem_of_cons in Ha as [->|Ha]; [congruence|].
      destruct (IH Ha Hin) as (pre & hit & post & -> & Hpre & Hhit & Hloop).
      exists (k :: pre), hit, post. rewrite Hloop.
      repeat split; [|done]. by constructor.
Qed.

Lemma add_frameworks_elem (table : list (string * list string))
      (content : string) (ts : gset string) (tech : string)
      (aliases : list string) :
  (tech, aliases) ∈ table ->
  (alias_loop aliases content).1 = true ->
  tech ∈ add_frameworks table content ts.
Proof.
  unfold add_frameworks. revert ts.
  induction table as [|[t al] table IH]; intros ts Hin Hhit.
  - by apply elem_of_nil in Hin.
  - apply elem_of_cons in Hin as [Heq|Hin]; simpl.
    + injection Heq as <- <-. rewrite Hhit.
      apply (add_frameworks_mono table content). set_solver.
    + by apply IH.
Qed.

Lemma occurs_never {A} `{EqDecision A} (x : A) (l : list A) :
  x ∉ l -> filter (fun y => y = x) l = [].
Proof.
  induction l as [|y l IH]; intros Hx; [done|].
  apply not_elem_of_cons in Hx as [Hne Hx].
  rewrite filter_cons. case_decide; [congruence|]. by apply IH.
Qed.

Lemma occurs_once {A} `{EqDecision A} (x : A) (l : list A) :
  NoDup l -> x ∈ l -> length (filter (fun y => y = x) l) = 1%nat.
Proof.
  induction 1 as [|y l Hy Hnd IH]; intros Hx.
  - by apply elem_of_nil in Hx.
  - rewrite filter_cons. case_decide as Hyx.
    + subst y. simpl. by rewrite occurs_never.
    + apply elem_of_cons in Hx as [->|Hx]; [done|]. by apply IH.
Qed.

(** C7: every key of the language map, lowercased, is in the list
    returned by [detect_tech_stack], whatever the byte count, the
    corpus and the keyword vocabulary. *)
Theorem C7_language_keys_are_tags (rd : repo_data) (cfg : config)
        (languages : gmap string Z) (k : string) :
  rd_languages rd = Some languages ->
  is_Some (languages !! k) ->
  lower k ∈ detect_tech_stack rd cfg.
Proof.
  intros Hl Hk. unfold detect_tech_stack, tech_stack_set.
  apply elem_of_elements.
  apply add_frameworks_mono, add_keywords_mono.
  by eapply add_languages_elem.
Qed.

Lemma C7_witness :
  let langs : gmap string Z := {[ "Python" := 0; "Go" := 120 ]} in
  (rd_languages (no_extras langs "") = Some langs
   /\ is_Some (langs !! "Python"))
  /\ "python" ∈ detect_tech_stack (no_extras langs "") {| tech_stack_keywords := [] |}.
Proof.
  intros langs. split; [split; [reflexivity | by exists 0]|].
  apply (C7_language_keys_are_tags (no_extras langs "")
           {| tech_stack_keywords := [] |} langs "Python");
    [reflexivity | by exists 0].
Defined.

(** C6: for every technology of the alias table, if one of its aliases
    is a plain substring of the lowercased corpus, the canonical name
    occurs exactly once in the result of [detect_tech_stack], and the
    alias loop stops at the first contained alias: the aliases after
    it are not tested. *)
Theorem C6_alias_hit_tags_once (rd : repo_data) (cfg : config)
        (tech : string) (aliases : list string) (a : string) :
  (tech, aliases) ∈ frameworks ->
  a ∈ aliases ->
  str_in a (content_of rd) = true ->
  length (filter (fun t => t = tech) (detect_tech_stack rd cfg)) = 1%nat
  /\ exists pre hit post,
       aliases = pre ++ hit :: post
       /\ Forall (fun k => str_in k (content_of rd) = false) pre
       /\ str_in hit (content_of rd) = true
       /\ alias_loop aliases (content_of rd) = (true, pre ++ [hit]).
Proof.
  intros Htab Ha Hin.
  pose proof (alias_loop_first_hit aliases (content_of rd) a Ha Hin) as Hloop.
  split; [|exact Hloop].
  apply occurs_once; [apply NoDup_elements|].
  unfold detect_tech_stack, tech_stack_set. apply elem_of_elements.
  eapply add_frameworks_elem; [exact Htab|].
  destruct Hloop as (pre & hit & post & _ & _ & _ & ->). done.
Qed.

Lemma C6_witness :
  (("react", react_aliases) ∈ frameworks
   /\ "jsx" ∈ react_aliases
   /\ str_in "jsx" (content_of react_repo) = true)
  /\ length (filter (fun t => t = "react")
               (detect_tech_stack react_repo {| tech_stack_keywords := ["react"] |}))
     = 1%nat.
Proof.
  assert (Ht : ("react", react_aliases) ∈ frameworks) by apply list_elem_of_here.
  assert (Ha : "jsx" ∈ react_aliases)
    by apply list_elem_of_further, list_elem_of_here.
  split; [by repeat split|].
  apply (C6_alias_hit_tags_once react_repo {| tech_stack_keywords := ["react"] |}
           "react" react_aliases "jsx" Ht Ha eq_refl).
Defined.

End Detector.

(** ** The keyword loop of the detector *)
Section KeywordPattern.

Lemma append_cons (c : ascii) (s t : string) :
  String c s +:+ t = String c (s +:+ t).
Proof. reflexivity. Qed.

Lemma append_empty_l (t : string) : "" +:+ t = t.
Proof. reflexivity. Qed.

Lemma escaped_char_is_literal (c : ascii) :
  Re.needs_escape c = true ->
  Ascii.eqb c "b" = false /\ Ascii.eqb c "d" = false /\ is_alnum c = false.
Proof.
  destruct c as [[] [] [] [] [] [] [] []]; vm_compute; intros H;
    first [discriminate H | by repeat split].
Qed.

Lemma plain_char_is_literal (c : ascii) :
  Re.needs_escape c = false ->
  Ascii.eqb c Re.backslash = false /\ Re.is_meta c = false
  /\ Ascii.eqb c "+" = false.
Proof.
  destruct c as [[] [] [] [] [] [] [] []]; vm_compute; intros H;
    first [discriminate H | by repeat split].
Qed.

Lemma escape_never_starts_with_plus (kw tail : string) :
  starts_with_plus tail = false ->
  starts_with_plus (Re.escape kw +:+ tail) = false.
Proof.
  intros Ht. destruct kw as [|c kw]; [done|].
  simpl Re.escape. destruct (Re.needs_escape c) eqn:Hc.
  - reflexivity.
  - rewrite append_cons. simpl. by apply plain_char_is_literal.
Qed.

Lemma compile_one_literal (c : ascii) (rest : string) :
  Ascii.eqb c Re.backslash = false -> Re.is_meta c = false ->
  starts_with_plus rest = false ->
  Re.compile (String c rest) = cons (Re.IOne (Re.ALit c)) <$> Re.compile rest.
Proof.
  intros Hb Hm Hp. change (Re.compile (String c rest)) with
    (if Ascii.eqb c Re.backslash then
       match rest with
       | EmptyString => None
       | String e rest' =>
           if Ascii.eqb e "b" then cons Re.IWordB <$> Re.compile rest'
           else
             let a := if Ascii.eqb e "d" then Some Re.ADigit
                      else if is_alnum e then None
                      else Some (Re.ALit e) in
             match a, rest' with
             | None, _ => None
             | Some a, String q rest'' =>
                 if Ascii.eqb q "+" then cons (Re.IPlus a) <$> Re.compile rest''
                 else cons (Re.IOne a) <$> Re.compile rest'
             | Some a, EmptyString => cons (Re.IOne a) <$> Re.compile rest'
             end
       end
     else if Re.is_meta c then None
     else
       match rest with
       | String q rest' =>
           if Ascii.eqb q "+" then cons (Re.IPlus (Re.ALit c)) <$> Re.compile rest'
           else cons (Re.IOne (Re.ALit c)) <$> Re.compile rest
       | EmptyString => cons (Re.IOne (Re.ALit c)) <$> Re.compile rest
       end).
  rewrite Hb, Hm. destruct rest as [|q rest]; [done|].
  simpl in Hp. by rewrite Hp.
Qed.

Lemma compile_escaped_char (c : ascii) (rest : string) :
  Re.needs_escape c = true ->
  starts_with_plus rest = false ->
  Re.compile (String Re.backslash (String c rest))
  = cons (Re.IOne (Re.ALit c)) <$> Re.compile rest.
Proof.
  intros Hc Hp. destruct (escaped_char_is_literal c Hc) as (Hb & Hd & Ha).
  change (Re.compile (String Re.backslash (String c rest))) with
    (if Ascii.eqb c "b" then cons Re.IWordB <$> Re.compile rest
     else
       let a := if Ascii.eqb c "d" then Some Re.ADigit
                else if is_alnum c then None
                else Some (Re.ALit c) in
       match a, rest with
       | None, _ => None
       | Some a, String q rest'' =>
           if Ascii.eqb q "+" then cons (Re.IPlus a) <$> Re.compile rest''
           else cons (Re.IOne a) <$> Re.compile rest
       | Some a, EmptyString => cons (Re.IOne a) <$> Re.compile rest
       end).
  rewrite Hb, Hd, Ha. simpl. destruct rest as [|q rest]; [done|].
  simpl in Hp. by rewrite Hp.
Qed.

Lemma compile_escape (kw tail : string) (re : list Re.item) :
  starts_with_plus tail = false ->
  Re.compile tail = Some re ->
  Re.compile (Re.escape kw +:+ tail) = Some (literal_items kw ++ re).
Proof.
  intros Hp Ht. induction kw as [|c kw IH]; [done|].
  pose proof (escape_never_starts_with_plus kw tail Hp) as Hnext.
  simpl Re.escape. destruct (Re.needs_escape c) eqn:Hc.
  - rewrite !append_cons, compile_escaped_char, IH by done. done.
  - destruct (plain_char_is_literal c Hc) as (Hb & Hm & _).
    rewrite append_cons, compile_one_literal, IH by done. done.
Qed.

Lemma match_here_literal (s : string) (prev : option ascii) (t : string) :
  Re.match_here (literal_items s) prev t = startswith s t.
Proof.
  revert prev t. induction s as [|c s IH]; intros prev t; [by destruct t|].
  destruct t as [|d t]; [done|]. simpl. by rewrite IH.
Qed.

Lemma search_from_literal (s : string) (prev : option ascii) (t : string) :
  Re.search_from (literal_items s) prev t = str_in s t.
Proof.
  revert prev. induction t as [|d t IH]; intros prev; simpl;
    rewrite match_here_literal; [done|]. by rewrite IH.
Qed.

Lemma literal_items_app (s t : string) :
  literal_items (s +:+ t) = literal_items s ++ literal_items t.
Proof. induction s as [|c s IH]; [done|]. rewrite append_cons. simpl. by rewrite IH. Qed.

(** The pattern of the keyword loop always compiles, and to plain
    characters only: its first two items are a backslash and the
    letter b, not a word-boundary assertion. *)
Lemma keyword_pattern_compiles (keyword : string) :
  Re.compile (keyword_pattern keyword)
  = Some (literal_items ("\b" +:+ lower keyword +:+ "\b")).
Proof.
  unfold keyword_pattern.
  change ("\\b" +:+ ?x) with (String "\" (String "\" (String "b" x))).
  rewrite compile_escaped_char; [|reflexivity|reflexivity].
  rewrite compile_one_literal;
    [|reflexivity|reflexivity|by apply escape_never_starts_with_plus].
  rewrite (compile_escape _ _ (literal_items "\b")); [|reflexivity|reflexivity].
  change ("\b" +:+ lower keyword +:+ "\b")
    with (String "\" (String "b" (lower keyword +:+ "\b"))).
  simpl literal_items. by rewrite literal_items_app.
Qed.

(** What the keyword loop really tests: the keyword is found exactly
    when the content contains the lowercased keyword written between
    two literal backslash-b pairs. *)
Lemma keyword_found_literally (keyword content : string) :
  keyword_found keyword content
  = str_in ("\b" +:+ lower keyword +:+ "\b") content.
Proof.
  unfold keyword_found, Re.search.
  rewrite keyword_pattern_compiles. apply search_from_literal.
Qed.

End KeywordPattern.

Section KeywordLoop.

Lemma str_in_has_head (c : ascii) (x t : string) :
  str_in (String c x) t = true -> has_char c t = true.
Proof.
  induction t as [|d t IH]; simpl; [done|].
  intros [H|H]%orb_true_iff.
  - apply andb_true_iff in H as [-> _]. done.
  - rewrite IH by done. apply orb_true_r.
Qed.

(** On a corpus without a backslash character the keyword loop adds no
    tag, whatever the vocabulary. *)
Lemma keyword_loop_adds_nothing (keywords : list string) (content : string)
      (ts : gset string) :
  has_char "\" content = false ->
  add_keywords keywords content ts = ts.
Proof.
  intros Hno. unfold add_keywords. revert ts.
  induction keywords as [|k keywords IH]; intros ts; [done|].
  simpl. rewrite keyword_found_literally.
  destruct (str_in _ content) eqn:Hin; [|apply IH].
  change ("\b" +:+ ?x) with (String "\" (String "b" x)) in Hin.
  apply str_in_has_head in Hin. congruence.
Qed.

(** C1 (the code departs from it): the vocabulary keyword Go occurs as
    a standalone word of the corpus "we use go here " (a word-boundary
    search finds it there, and does not find it in "we are going
    there "), yet the keyword loop does not find it and
    [detect_tech_stack] returns no tag at all. *)
Theorem C1_standalone_keyword_is_missed :
  Re.search (word_boundary_pattern "Go") (content_of go_repo) = Some true
  /\ Re.search (word_boundary_pattern "Go") (content_of going_repo) = Some false
  /\ keyword_found "Go" (content_of go_repo) = false
  /\ detect_tech_stack go_repo go_config = [].
Proof. repeat split; vm_compute; reflexivity. Qed.

End KeywordLoop.

(** ** The service scanner *)
Section Services.

Lemma init_services_lookup (service_keywords : list string) (s : string) :
  init_services service_keywords !! s
  = if bool_decide (s ∈ service_keywords) then Some false else None.
Proof.
  unfold init_services.
  induction service_keywords as [|k kws IH] using rev_ind.
  - cbn [foldl]. rewrite lookup_empty. case_bool_decide; [set_solver|done].
  - rewrite foldl_app. cbn [foldl]. destruct (decide (k = s)) as [->|Hne].
    + rewrite lookup_insert_eq.
      by rewrite (bool_decide_eq_true_2 (s ∈ kws ++ [s])) by set_solver.
    + rewrite lookup_insert_ne, IH by done.
      rewrite (bool_decide_ext (s ∈ kws ++ [k]) (s ∈ kws)); [done|].
      rewrite elem_of_app, list_elem_of_singleton.
      split; [intros [?|?]; [done|congruence] | by left].
Qed.

Lemma scan_content_lookup (service_keywords : list string) (cl : string)
      (services : gmap string bool) (s : string) :
  scan_content service_keywords cl services !! s
  = if bool_decide (s ∈ service_keywords) && str_in (lower s) cl
    then Some true else services !! s.
Proof.
  unfold scan_content.
  induction service_keywords as [|k kws IH] using rev_ind.
  - cbn [foldl]. case_bool_decide; [set_solver|done].
  - rewrite foldl_app. cbn [foldl].
    destruct (decide (k = s)) as [->|Hne].
    + rewrite (bool_decide_eq_true_2 (s ∈ kws ++ [s])) by set_solver.
      cbn [andb].
      destruct (str_in (lower s) cl); [by rewrite lookup_insert_eq|].
      rewrite IH. by rewrite andb_false_r.
    + rewrite (bool_decide_ext (s ∈ kws ++ [k]) (s ∈ kws))
        by (rewrite elem_of_app, list_elem_of_singleton;
            split; [intros [?|?]; [done|congruence] | by left]).
      destruct (str_in (lower k) cl); [rewrite lookup_insert_ne by done|]; apply IH.
Qed.

Lemma scan_file_lookup (r : remote) (service_keywords : list string)
      (services : gmap string bool) (fm : file_meta) (s : string) :
  scan_file r service_keywords services fm !! s
  = if bool_decide (s ∈ service_keywords) && file_evidence r s fm
    then Some true else services !! s.
Proof.
  unfold scan_file, file_evidence.
  destruct (fm_path fm) as [path|]; [|by rewrite andb_false_r].
  destruct (get_file_content r path) as [content|]; [|by rewrite andb_false_r].
  destruct (str_truthy content); [|by rewrite andb_false_r].
  apply scan_content_lookup.
Qed.

Lemma scan_files_lookup (r : remote) (service_keywords : list string)
      (config_files : list file_meta) (services : gmap string bool) (s : string) :
  foldl (scan_file r service_keywords) services config_files !! s
  = if bool_decide (s ∈ service_keywords) && evidence r config_files s
    then Some true else services !! s.
Proof.
  unfold evidence. revert services.
  induction config_files as [|fm fms IH]; intros services; simpl.
  - by rewrite andb_false_r.
  - rewrite IH, scan_file_lookup.
    destruct (bool_decide (s ∈ service_keywords)); simpl; [|done].
    destruct (file_evidence r s fm); simpl; [|done].
    by destruct (existsb _ fms).
Qed.

(** The flag of every key after the whole scan. *)
Lemma detect_services_lookup (r : remote) (config_files : list file_meta)
      (service_keywords : list string) (s : string) :
  detect_services r config_files service_keywords !! s
  = if workflows_present r && bool_decide (s = github_actions) then Some true
    else if bool_decide (s ∈ service_keywords)
         then Some (evidence r config_files s)
         else None.
Proof.
  assert (Hscan :
    foldl (scan_file r service_keywords) (init_services service_keywords)
          config_files !! s
    = if bool_decide (s ∈ service_keywords)
      then Some (evidence r config_files s) else None).
  { rewrite scan_files_lookup, init_services_lookup.
    destruct (bool_decide (s ∈ service_keywords)); simpl; [|done].
    by destruct (evidence r config_files s). }
  unfold detect_services, workflows_check, workflows_present.
  destruct (workflows_listing r) as [| |[|e es]]; simpl; try exact Hscan.
  destruct (decide (s = github_actions)) as [Hs|Hs].
  - rewrite (bool_decide_eq_true_2 _ Hs), Hs. by rewrite lookup_insert_eq.
  - rewrite (bool_decide_eq_false_2 _ Hs). by rewrite lookup_insert_ne.
Qed.

(** C3 as stated fails: with the vocabulary [sentry] and a repository
    that has a workflow, the returned mapping also has the key
    [github actions], which is not in the vocabulary. *)
Lemma C3_counterexample :
  dom (detect_services remote_with_workflows [] ["sentry"])
  <> list_to_set ["sentry"].
Proof.
  intros Heq.
  assert (Hin : github_actions ∈ dom (detect_services remote_with_workflows [] ["sentry"])).
  { apply elem_of_dom. exists true. reflexivity. }
  rewrite Heq in Hin. apply elem_of_list_to_set in Hin.
  apply list_elem_of_singleton in Hin. discriminate Hin.
Qed.

(** C3 (amended): the key set of the mapping returned by
    [detect_services] is the keyword vocabulary, together with the key
    [github actions] when the workflows listing is a non-empty list, and
    nothing else; every vocabulary entry is present, with the value
    false unless a fetched configuration file contains it or it is the
    [github actions] key set by the workflows check. *)
Theorem C3_service_keys (r : remote) (config_files : list file_meta)
        (service_keywords : list string) :
  dom (detect_services r config_files service_keywords)
  = list_to_set service_keywords
    ∪ (if workflows_present r then {[ github_actions ]} else ∅)
  /\ Forall (fun s =>
       detect_services r config_files service_keywords !! s
       = Some (evidence r config_files s
               || workflows_present r && bool_decide (s = github_actions)))
     service_keywords.
Proof.
  split.
  - apply set_eq. intros s.
    rewrite elem_of_dom, detect_services_lookup, elem_of_union, elem_of_list_to_set.
    destruct (workflows_present r); simpl.
    + case_bool_decide as Hs; [rewrite Hs, elem_of_singleton|].
      * split; [by right | by eexists].
      * rewrite elem_of_singleton. case_bool_decide as Hk.
        -- split; [by left | by eexists].
        -- split; [by intros [? ?] | intros [?|?]; done].
    + case_bool_decide as Hk.
      * split; [by left | by eexists].
      * split; [by intros [? ?] | intros [?|?]; [done|set_solver]].
  - apply Forall_forall. intros s Hs.
    rewrite detect_services_lookup, (bool_decide_eq_true_2 _ Hs).
    destruct (workflows_present r && bool_decide (s = github_actions));
      by rewrite ?orb_true_r, ?orb_false_r.
Qed.

End Services.

(** ** The README summary *)
Section Summary.

Lemma length_append (s t : string) :
  String.length (s +:+ t) = (String.length s + String.length t)%nat.
Proof. induction s as [|c s IH]; [done|]. rewrite append_cons. simpl. by rewrite IH. Qed.

Lemma length_take_str (n : nat) (s : string) :
  String.length (take_str n s) = (n `min` String.length s)%nat.
Proof.
  revert s. induction n as [|n IH]; intros [|c s]; simpl; try done.
  by rewrite IH.
Qed.

Lemma truncate_length (s : string) : (String.length (truncate s) <= 200)%nat.
Proof.
  unfold truncate. destruct (200 <? String.length s)%nat eqn:Hlen.
  - apply Nat.ltb_lt in Hlen. rewrite length_append, length_take_str.
    change (String.length "...") with 3%nat. lia.
  - apply Nat.ltb_ge in Hlen. done.
Qed.

Lemma truncate_long (s : string) :
  (200 < String.length s)%nat ->
  truncate s = take_str 197 s +:+ "..."
  /\ String.length (truncate s) = 200%nat.
Proof.
  intros Hlen. unfold truncate.
  rewrite (proj2 (Nat.ltb_lt _ _) Hlen). split; [done|].
  rewrite length_append, length_take_str.
    change (String.length "...") with 3%nat. lia.
Qed.

(** [split] always returns at least one piece. *)
Lemma split_scan_not_nil (sep : string) (skip : nat) (s : string) :
  split_scan sep skip s <> [].
Proof.
  revert skip. induction s as [|c s IH]; intros skip; [done|].
  cbn [split_scan]. destruct skip as [|k]; [|apply IH].
  destruct (startswith sep (String c s)); [done|].
  destruct (split_scan sep 0 s) eqn:Hs; done.
Qed.

(** The summary of a README with at least one character is the
    truncated, cleaned first paragraph. *)
Lemma extract_summary_nonempty (rd : repo_data) :
  str_truthy (default "" (rd_readme rd)) = true ->
  extract_summary rd
  = truncate (clean_up_markdown
                (first_paragraph (split (LF +:+ LF) (default "" (rd_readme rd))))).
Proof.
  intros Ht. unfold extract_summary. rewrite Ht.
  destruct (split (LF +:+ LF) _) as [|p ps] eqn:Hs; [|done].
  by apply split_scan_not_nil in Hs.
Qed.

(** C8 as stated fails: the README below starts with a heading block,
    its second block has 250 characters, and the summary has 150
    characters and no ellipsis, because the underscores are stripped
    before the length is tested. *)
Lemma C8_counterexample :
  split (LF +:+ LF) (headed_readme snake_paragraph)
  = ["# Title"; snake_paragraph; "More text."]
  /\ String.length snake_paragraph = 250%nat
  /\ extract_summary (readme_of (headed_readme snake_paragraph))
     = repeat_str "abc" 50
  /\ String.length (extract_summary (readme_of (headed_readme snake_paragraph)))
     <> 200%nat.
Proof. repeat split; vm_compute; congruence. Qed.

(** C8 (amended): every summary has at most 200 characters; when the
    cleaned first non-heading paragraph has more than 200 characters,
    the summary is its first 197 characters followed by three dots; so
    a README whose first block is a heading and whose second block
    still has more than 200 characters after markdown stripping and
    trimming (for instance a 250-character paragraph that the clean-up
    leaves unchanged) yields a summary of exactly 200 characters ending
    in three dots. *)
Theorem C8_summary_length (rd : repo_data) :
  (String.length (extract_summary rd) <= 200)%nat
  /\ (let paragraph :=
        clean_up_markdown
          (first_paragraph (split (LF +:+ LF) (default "" (rd_readme rd)))) in
      (200 < String.length paragraph)%nat ->
      extract_summary rd = take_str 197 paragraph +:+ "...")
  /\ (forall (readme heading paragraph : string) (rest : list string),
        rd_readme rd = Some readme ->
        split (LF +:+ LF) readme = heading :: paragraph :: rest ->
        startswith "#" heading = true ->
        (200 < String.length (clean_up_markdown paragraph))%nat ->
        extract_summary rd = take_str 197 (clean_up_markdown paragraph) +:+ "..."
        /\ String.length (extract_summary rd) = 200%nat)
  /\ (forall (readme heading paragraph : string) (rest : list string),
        rd_readme rd = Some readme ->
        split (LF +:+ LF) readme = heading :: paragraph :: rest ->
        startswith "#" heading = true ->
        String.length paragraph = 250%nat ->
        clean_up_markdown paragraph = paragraph ->
        extract_summary rd = take_str 197 paragraph +:+ "..."
        /\ String.length (extract_summary rd) = 200%nat).
Proof.
  assert (Hheaded : forall (readme heading paragraph : string) (rest : list string),
            rd_readme rd = Some readme ->
            split (LF +:+ LF) readme = heading :: paragraph :: rest ->
            startswith "#" heading = true ->
            (200 < String.length (clean_up_markdown paragraph))%nat ->
            extract_summary rd = take_str 197 (clean_up_markdown paragraph) +:+ "..."
            /\ String.length (extract_summary rd) = 200%nat).
  { intros readme heading paragraph rest Hr Hs Hh Hlen.
    assert (Ht : str_truthy readme = true).
    { destruct readme; [|done]. by rewrite <- Hh; injection Hs as <- _. }
    rewrite extract_summary_nonempty; rewrite Hr; [|exact Ht].
    change (default "" (Some readme)) with readme. rewrite Hs.
    unfold first_paragraph. simpl nth. rewrite Hh. simpl.
    by apply truncate_long. }
  split; [|split; [|split]].
  - unfold extract_summary.
    destruct (str_truthy _); [|simpl; lia].
    destruct (list_truthy _); [apply truncate_length|simpl; lia].
  - intros paragraph Hlen.
    destruct (str_truthy (default "" (rd_readme rd))) eqn:Ht.
    + rewrite (extract_summary_nonempty rd Ht). by apply truncate_long.
    + exfalso. unfold paragraph in Hlen.
      destruct (default "" (rd_readme rd)); [|done].
      vm_compute in Hlen. lia.
  - exact Hheaded.
  - intros readme heading paragraph rest Hr Hs Hh Hlen Hclean.
    rewrite <- Hclean at 1.
    apply (Hheaded readme heading paragraph rest Hr Hs Hh).
    rewrite Hclean, Hlen. lia.
Qed.

Lemma C8_witness :
  (rd_readme (readme_of (headed_readme plain_paragraph))
   = Some (headed_readme plain_paragraph)
   /\ split (LF +:+ LF) (headed_readme plain_paragraph)
      = ["# Title"; plain_paragraph; "More text."]
   /\ startswith "#" "# Title" = true
   /\ String.length plain_paragraph = 250%nat
   /\ clean_up_markdown plain_paragraph = plain_paragraph)
  /\ extract_summary (readme_of (headed_readme plain_paragraph))
     = take_str 197 plain_paragraph +:+ "..."
  /\ String.length (extract_summary (readme_of (headed_readme plain_paragraph)))
     = 200%nat.
Proof.
  split; [repeat split; vm_compute; reflexivity|].
  apply (proj2 (proj2 (proj2
           (C8_summary_length (readme_of (headed_readme plain_paragraph)))))
           (headed_readme plain_paragraph) "# Title" plain_paragraph ["More text."]);
    vm_compute; reflexivity.
Defined.

End Summary.

(** ** The technology ranking *)

(** *** The stable sort by decreasing count *)
Section StableSort.

(** The order of the items in the list that is sorted. *)
Variable before : relation (string * Z).

Lemma insert_desc_perm (x : string * Z) (l : list (string * Z)) :
  insert_desc x l ≡ₚ x :: l.
Proof.
  induction l as [|y l IH]; [done|]. cbn [insert_desc].
  destruct (x.2 <? y.2); [|done].
  rewrite IH. apply Permutation_swap.
Qed.

Lemma sorted_by_count_desc_perm (l : list (string * Z)) :
  sorted_by_count_desc l ≡ₚ l.
Proof.
  induction l as [|x l IH]; [done|].
  unfold sorted_by_count_desc in *. cbn [foldr].
  by rewrite insert_desc_perm, IH.
Qed.

Lemma ranks_before_count (x y : string * Z) : ranks_before before x y -> y.2 <= x.2.
Proof. intros [H|[H _]]; lia. Qed.

Lemma insert_desc_sorted (x : string * Z) (l : list (string * Z)) :
  StronglySorted (ranks_before before) l ->
  Forall (before x) l ->
  StronglySorted (ranks_before before) (insert_desc x l).
Proof.
  induction 1 as [|y l Hs IH Hy]; intros Hx.
  - repeat constructor.
  - apply Forall_cons in Hx as [Hxy Hx]. cbn [insert_desc].
    destruct (Z.ltb_spec (x.2) (y.2)) as [Hlt|Hge].
    + constructor; [by apply IH|].
      rewrite insert_desc_perm. constructor; [by left|done].
    + constructor; [by constructor|].
      assert (Hall : Forall (fun z => z.2 <= x.2 /\ before x z) (y :: l)).
      { constructor; [done|].
        rewrite Forall_forall in Hy, Hx |- *. intros z Hz. split; [|by apply Hx].
        pose proof (ranks_before_count y z (Hy z Hz)). lia. }
      eapply Forall_impl; [exact Hall|].
      intros z [Hz1 Hz2]. unfold ranks_before.
      destruct (decide (z.2 = x.2)); [right | left; lia]. done.
Qed.

Lemma sorted_by_count_desc_sorted (l : list (string * Z)) :
  StronglySorted before l ->
  StronglySorted (ranks_before before) (sorted_by_count_desc l).
Proof.
  induction 1 as [|x l Hs IH Hx]; [constructor|].
  unfold sorted_by_count_desc in *. cbn [foldr].
  apply insert_desc_sorted; [done|].
  by rewrite sorted_by_count_desc_perm.
Qed.

End StableSort.

(** *** Counting the tags *)
Section Counting.

Lemma tech_counts_all_tags (repositories : list repository) :
  tech_counts repositories = count_all (all_tags repositories).
Proof.
  unfold tech_counts, count_all, all_tags. generalize (@nil (string * Z)).
  induction repositories as [|repo repos IH]; intros acc; [done|].
  rewrite fmap_cons. cbn [foldl concat]. rewrite foldl_app. apply IH.
Qed.

Lemma first_index_le_length (t : string) (tags : list string) :
  (first_index t tags <= length tags)%nat.
Proof. induction tags as [|x tags IH]; simpl; [done|]. case_decide; lia. Qed.

Lemma first_index_elem (t : string) (tags : list string) :
  (first_index t tags < length tags)%nat <-> t ∈ tags.
Proof.
  induction tags as [|x tags IH]; simpl.
  - split; [lia | by intros ?%elem_of_nil].
  - rewrite elem_of_cons. case_decide as Hx.
    + split; [by left | lia].
    + rewrite <- IH. split; [right; lia | intros [?|?]; [congruence | lia]].
Qed.

Lemma first_index_app_elem (t : string) (tags more : list string) :
  t ∈ tags -> first_index t (tags ++ more) = first_index t tags.
Proof.
  induction tags as [|x tags IH]; intros Ht; [by apply elem_of_nil in Ht|].
  simpl. case_decide as Hx; [done|].
  apply elem_of_cons in Ht as [?|Ht]; [congruence|]. by rewrite IH.
Qed.

Lemma first_index_app_fresh (t : string) (tags more : list string) :
  t ∉ tags ->
  first_index t (tags ++ more) = (length tags + first_index t more)%nat.
Proof.
  induction tags as [|x tags IH]; intros Ht; [done|].
  apply not_elem_of_cons in Ht as [Hne Ht].
  simpl. case_decide; [congruence|]. by rewrite IH.
Qed.

Lemma seen_before_app (tags more : list string) (x y : string * Z) :
  seen_before tags x y -> seen_before (tags ++ more) x y.
Proof.
  unfold seen_before. intros Hxy.
  pose proof (first_index_le_length y.1 tags) as Hy.
  rewrite (first_index_app_elem x.1) by (apply first_index_elem; lia).
  destruct (decide (y.1 ∈ tags)) as [Hin|Hout].
  - by rewrite first_index_app_elem.
  - rewrite first_index_app_fresh by done. lia.
Qed.

Lemma occurrences_snoc (t t' : string) (tags : list string) :
  occurrences t' (tags ++ [t])
  = occurrences t' tags + (if decide (t' = t) then 1 else 0).
Proof.
  unfold occurrences. rewrite filter_app, length_app.
  rewrite filter_cons, filter_nil.
  destruct (decide (t = t')) as [->|Hne].
  - rewrite decide_True by done. simpl. lia.
  - rewrite decide_False by congruence. simpl. lia.
Qed.

Lemma occurrences_absent (t : string) (tags : list string) :
  t ∉ tags -> occurrences t tags = 0.
Proof. intros Ht. unfold occurrences. by rewrite occurs_never. Qed.

Lemma count_tech_fresh (t : string) (tc : list (string * Z)) :
  t ∉ tc.*1 -> count_tech t tc = tc ++ [(t, 1)].
Proof.
  induction tc as [|[k c] tc IH]; intros Ht; [done|].
  rewrite fmap_cons in Ht. apply not_elem_of_cons in Ht as [Hne Ht].
  cbn [count_tech]. rewrite (proj2 (String.eqb_neq k t)) by (simpl in Hne; congruence).
  by rewrite IH.
Qed.

Lemma bump_absent (t : string) (tc : list (string * Z)) :
  t ∉ tc.*1 -> bump t <$> tc = tc.
Proof.
  induction tc as [|[k c] tc IH]; intros Ht; [done|].
  rewrite fmap_cons in Ht. apply not_elem_of_cons in Ht as [Hne Ht].
  rewrite fmap_cons, IH by done. unfold bump. simpl in *.
  by rewrite decide_False by congruence.
Qed.

Lemma count_tech_present (t : string) (tc : list (string * Z)) :
  NoDup tc.*1 -> t ∈ tc.*1 -> count_tech t tc = bump t <$> tc.
Proof.
  induction tc as [|[k c] tc IH]; intros Hnd Ht; [by apply elem_of_nil in Ht|].
  rewrite fmap_cons in Hnd, Ht. apply NoDup_cons in Hnd as [Hk Hnd].
  cbn [count_tech]. rewrite fmap_cons. unfold bump at 1. simpl in *.
  destruct (String.eqb_spec k t) as [->|Hne].
  - rewrite decide_True by done. by rewrite bump_absent.
  - rewrite decide_False by done.
    apply elem_of_cons in Ht as [?|Ht]; [congruence|]. by rewrite IH.
Qed.

Lemma bump_keys (t : string) (tc : list (string * Z)) : (bump t <$> tc).*1 = tc.*1.
Proof. rewrite <- list_fmap_compose. by apply list_fmap_ext. Qed.

Lemma count_all_counted (tags : list string) : counted tags (count_all tags).
Proof.
  unfold count_all. induction tags as [|t tags IH] using rev_ind.
  - split; simpl; [constructor | done | by intros ? ? ?%elem_of_nil | constructor].
  - rewrite foldl_app. cbn [foldl].
    set (tc := foldl (fun tc tech => count_tech tech tc) [] tags) in *.
    destruct IH as [Hnd Hkeys Hvals Hord].
    destruct (decide (t ∈ tc.*1)) as [Hin|Hout].
    + rewrite count_tech_present by done. split.
      * by rewrite bump_keys.
      * intros t'. rewrite bump_keys, Hkeys, elem_of_app, list_elem_of_singleton.
        split; [by left | intros [? | ->]; [done | by apply Hkeys]].
      * intros t' c' (kc & Heq & Hkc)%list_elem_of_fmap.
        destruct kc as [k c]. unfold bump in Heq. simpl in Heq.
        injection Heq as -> ->.
        rewrite occurrences_snoc, (Hvals k c Hkc). case_decide; lia.
      * apply (StronglySorted_fmap (bump t) (seen_before tags)); [|done].
        intros x y Hxy. by apply (seen_before_app tags [t] x y).
    + rewrite count_tech_fresh by done.
      assert (Ht : t ∉ tags) by (by rewrite <- Hkeys).
      split.
      * rewrite fmap_app. apply NoDup_app. split; [done|].
        split; [|apply NoDup_singleton].
        intros k Hk ->%list_elem_of_singleton. done.
      * intros t'. rewrite fmap_app, !elem_of_app, Hkeys. done.
      * intros t' c' [Hkc|Heq%list_elem_of_singleton]%elem_of_app.
        -- rewrite occurrences_snoc, (Hvals t' c' Hkc).
           rewrite decide_False; [lia|].
           intros ->. apply Hout, list_elem_of_fmap. by exists (t, c').
        -- injection Heq as -> ->.
           rewrite occurrences_snoc, occurrences_absent by done.
           by rewrite decide_True.
      * apply StronglySorted_app_2.
        -- intros x y Hx ->%list_elem_of_singleton.
           assert (Hxin : x.1 ∈ tags).
           { apply Hkeys, list_elem_of_fmap. by exists x. }
           unfold seen_before. simpl.
           rewrite first_index_app_elem, first_index_app_fresh by done.
           apply first_index_elem in Hxin. lia.
        -- eapply StronglySorted_fmap with (f := id) in Hord;
             [by rewrite list_fmap_id in Hord|].
           intros x y. apply seen_before_app.
        -- repeat constructor.
Qed.

End Counting.

(** *** The ranking *)
Section Ranking.

Lemma ranked_counted (repositories : list repository) :
  let tags := all_tags repositories in
  let ranked := ranked_technologies repositories in
  NoDup ranked.*1
  /\ (forall t c, (t, c) ∈ ranked <-> t ∈ tags /\ c = occurrences t tags)
  /\ StronglySorted (ranked_before tags) ranked.
Proof.
  intros tags ranked.
  destruct (count_all_counted tags) as [Hnd Hkeys Hvals Hord].
  assert (Hperm : ranked ≡ₚ count_all tags).
  { unfold ranked, ranked_technologies. rewrite tech_counts_all_tags.
    apply sorted_by_count_desc_perm. }
  split; [by rewrite Hperm|]. split.
  - intros t c. rewrite Hperm. split.
    + intros Htc. split; [|by apply Hvals].
      apply Hkeys, list_elem_of_fmap. by exists (t, c).
    + intros [Ht ->].
      apply Hkeys, list_elem_of_fmap in Ht as ([k c] & -> & Hkc).
      simpl. by rewrite <- (Hvals k c Hkc).
  - unfold ranked, ranked_technologies. rewrite tech_counts_all_tags.
    by apply sorted_by_count_desc_sorted.
Qed.

(** C9: for a non-negative [n], [get_top_technologies] returns the
    first [n] entries (all of them when there are fewer distinct tags)
    of the ranking of all tags: each tag once, paired with its number
    of occurrences across all records, sorted by decreasing count with
    equal counts in first-encountered order; hence every tag left out
    ranks after every tag returned.  With counts a:3, b:3, c:1 and
    n = 2 it returns a and b in the order they were first seen. *)
Theorem C9_top_technologies (repositories : list repository) (top_n : Z) :
  0 <= top_n ->
  let tags := all_tags repositories in
  let top := get_top_technologies repositories top_n in
  top = take (Z.to_nat top_n) (ranked_technologies repositories)
  /\ length top = (Z.to_nat top_n `min` size (list_to_set tags : gset string))%nat
  /\ NoDup top.*1
  /\ (forall t c, (t, c) ∈ top -> t ∈ tags /\ c = occurrences t tags)
  /\ StronglySorted (ranked_before tags) top
  /\ (forall t c t', (t, c) ∈ top -> t' ∈ tags -> t' ∉ top.*1 ->
        ranked_before tags (t, c) (t', occurrences t' tags))
  /\ get_top_technologies a_first 2 = [("a", 3); ("b", 3)]
  /\ get_top_technologies b_first 2 = [("b", 3); ("a", 3)].
Proof.
  intros Hn tags top.
  destruct (ranked_counted repositories) as (Hnd & Hmem & Hsorted).
  fold tags in Hnd, Hmem, Hsorted.
  set (ranked := ranked_technologies repositories) in *.
  assert (Htop : top = take (Z.to_nat top_n) ranked).
  { unfold top, get_top_technologies, slice_to.
    by rewrite (proj2 (Z.leb_le 0 top_n) Hn). }
  assert (Hsplit : ranked = top ++ drop (Z.to_nat top_n) ranked)
    by (by rewrite Htop, take_drop).
  split; [done|]. split.
  { rewrite Htop, length_take. f_equal.
    rewrite <- (length_fmap fst ranked), <- (size_list_to_set (C := gset string)) by done.
    f_equal. apply set_eq. intros t. rewrite !elem_of_list_to_set.
    rewrite list_elem_of_fmap. split.
    - intros ([k c] & -> & Hkc). by apply Hmem in Hkc as [? _].
    - intros Ht. exists (t, occurrences t tags). split; [done|]. by apply Hmem. }
  split.
  { rewrite Hsplit, fmap_app in Hnd. by apply NoDup_app in Hnd as [? _]. }
  split.
  { intros t c Htc. apply Hmem. rewrite Hsplit. apply elem_of_app. by left. }
  split.
  { rewrite Hsplit in Hsorted. by apply StronglySorted_app_1_l in Hsorted. }
  split.
  { intros t c t' Htc Ht' Hout.
    assert (Hin : (t', occurrences t' tags) ∈ ranked) by (by apply Hmem).
    rewrite Hsplit in Hin, Hsorted.
    apply elem_of_app in Hin as [Hin|Hin].
    - exfalso. apply Hout, list_elem_of_fmap. by exists (t', occurrences t' tags).
    - by apply (StronglySorted_app_1_elem_of _ _ _ _ _ Hsorted). }
  split; vm_compute; reflexivity.
Qed.

Lemma C9_witness :
  0 <= 2
  /\ get_top_technologies a_first 2
     = take (Z.to_nat 2) (ranked_technologies a_first).
Proof.
  split; [lia|]. apply (C9_top_technologies a_first 2). lia.
Defined.

End Ranking.

(** ** More on the tech-stack detector *)
Section DetectorProvenance.

Lemma lower_char_idempotent (c : ascii) : lower_char (lower_char c) = lower_char c.
Proof. destruct c as [[] [] [] [] [] [] [] []]; reflexivity. Qed.

Lemma lower_idempotent (s : string) : lower (lower s) = lower s.
Proof.
  induction s as [|c s IH]; [done|]. simpl. by rewrite lower_char_idempotent, IH.
Qed.

Lemma fold_languages_spec (langs : list string) (ts : gset string) (t : string) :
  t ∈ foldl (fun ts lang => ts ∪ {[ lower lang ]}) ts langs
  <-> t ∈ ts \/ exists lang, lang ∈ langs /\ t = lower lang.
Proof.
  revert ts. induction langs as [|l langs IH]; intros ts; simpl.
  - split; [by left | intros [?|(? & ?%elem_of_nil & _)]; done].
  - rewrite IH, elem_of_union, elem_of_singleton. split.
    + intros [[?| ->]|(lang & Hl & ->)]; [by left| |].
      * right. exists l. split; [apply list_elem_of_here|done].
      * right. exists lang. split; [by apply list_elem_of_further|done].
    + intros [?|(lang & [->|Hl]%elem_of_cons & ->)]; [by left; left| |].
      * by left; right.
      * right. by exists lang.
Qed.

Lemma add_languages_spec (rd : repo_data) (ts : gset string) (t : string) :
  t ∈ add_languages rd ts
  <-> t ∈ ts \/ exists languages lang,
                  rd_languages rd = Some languages
                  /\ is_Some (languages !! lang) /\ t = lower lang.
Proof.
  unfold add_languages. destruct (rd_languages rd) as [languages|].
  - case_bool_decide as He.
    + split; [by left|]. intros [?|(m & lang & [= <-] & [v Hv] & _)]; [done|].
      by rewrite He, lookup_empty in Hv.
    + rewrite fold_languages_spec. split.
      * intros [?|(lang & ([k v] & -> & Hkv)%list_elem_of_fmap & ->)]; [by left|].
        right. exists languages, k. split; [done|]. split; [|done].
        exists v. by apply elem_of_map_to_list.
      * intros [?|(m & lang & [= <-] & [v Hv] & ->)]; [by left|].
        right. exists lang. split; [|done].
        apply list_elem_of_fmap. exists (lang, v). split; [done|].
        by apply elem_of_map_to_list.
  - split; [by left|]. by intros [?|(m & lang & [=] & _)].
Qed.

Lemma add_keywords_spec (keywords : list string) (content : string)
      (ts : gset string) (t : string) :
  t ∈ add_keywords keywords content ts
  <-> t ∈ ts \/ exists kw, kw ∈ keywords /\ keyword_found kw content = true
                           /\ t = lower kw.
Proof.
  unfold add_keywords. revert ts.
  induction keywords as [|k keywords IH]; intros ts; simpl.
  - split; [by left | intros [?|(? & ?%elem_of_nil & _)]; done].
  - rewrite IH. destruct (keyword_found k content) eqn:Hk.
    + rewrite elem_of_union, elem_of_singleton. split.
      * intros [[?| ->]|(kw & Hkw & Hf & ->)]; [by left| |].
        -- right. exists k. split; [apply list_elem_of_here|done].
        -- right. exists kw. split; [by apply list_elem_of_further|done].
      * intros [?|(kw & [->|Hkw]%elem_of_cons & Hf & ->)]; [by left; left| |].
        -- by left; right.
        -- right. by exists kw.
    + split.
      * intros [?|(kw & Hkw & Hf & ->)]; [by left|].
        right. exists kw. split; [by apply list_elem_of_further|done].
      * intros [?|(kw & [->|Hkw]%elem_of_cons & Hf & ->)]; [by left|congruence|].
        right. by exists kw.
Qed.

Lemma alias_loop_hit (aliases : list string) (content : string) :
  (alias_loop aliases content).1 = true
  <-> exists a, a ∈ aliases /\ str_in a content = true.
Proof.
  split.
  - induction aliases as [|k aliases IH]; simpl; [done|].
    destruct (str_in k content) eqn:Hk.
    + intros _. exists k. split; [apply list_elem_of_here|done].
    + destruct (alias_loop aliases content) as [hit tested]. simpl.
      intros Hhit. destruct (IH Hhit) as (a & Ha & Hin).
      exists a. split; [by apply list_elem_of_further|done].
  - intros (a & Ha & Hin).
    by destruct (alias_loop_first_hit aliases content a Ha Hin)
      as (? & ? & ? & _ & _ & _ & ->).
Qed.

Lemma add_frameworks_spec (table : list (string * list string))
      (content : string) (ts : gset string) (t : string) :
  t ∈ add_frameworks table content ts
  <-> t ∈ ts \/ exists aliases a, (t, aliases) ∈ table /\ a ∈ aliases
                                  /\ str_in a content = true.
Proof.
  unfold add_frameworks. revert ts.
  induction table as [|[tech al] table IH]; intros ts; simpl.
  - split; [by left | intros [?|(? & ? & ?%elem_of_nil & _)]; done].
  - rewrite IH. destruct (alias_loop al content).1 eqn:Hhit.
    + apply alias_loop_hit in Hhit as (a0 & Ha0 & Hin0).
      rewrite elem_of_union, elem_of_singleton. split.
      * intros [[?| ->]|(aliases & a & Ht & Ha & Hin)]; [by left| |].
        -- right. exists al, a0. split; [apply list_elem_of_here|done].
        -- right. exists aliases, a. split; [by apply list_elem_of_further|done].
      * intros [?|(aliases & a & [[= -> ->]|Ht]%elem_of_cons & Ha & Hin)];
          [by left; left| |].
        -- by left; right.
        -- right. by exists aliases, a.
    + split.
      * intros [?|(aliases & a & Ht & Ha & Hin)]; [by left|].
        right. exists aliases, a. split; [by apply list_elem_of_further|done].
      * intros [?|(aliases & a & [[= -> ->]|Ht]%elem_of_cons & Ha & Hin)];
          [by left| |].
        -- assert (Hyes : (alias_loop al content).1 = true)
             by (apply alias_loop_hit; by exists a).
           congruence.
        -- right. by exists aliases, a.
Qed.

Lemma detect_tech_stack_elem (rd : repo_data) (cfg : config) (t : string) :
  t ∈ detect_tech_stack rd cfg
  <-> (exists languages lang,
         rd_languages rd = Some languages
         /\ is_Some (languages !! lang) /\ t = lower lang)
      \/ (exists kw,
            kw ∈ tech_stack_keywords cfg
            /\ str_in ("\b" +:+ lower kw +:+ "\b") (content_of rd) = true
            /\ t = lower kw)
      \/ (exists aliases a,
            (t, aliases) ∈ frameworks /\ a ∈ aliases
            /\ str_in a (content_of rd) = true).
Proof.
  unfold detect_tech_stack, tech_stack_set.
  rewrite elem_of_elements, add_frameworks_spec, add_keywords_spec,
    add_languages_spec.
  setoid_rewrite keyword_found_literally.
  split.
  - intros [[[?%elem_of_empty|?]|?]|?]; auto. done.
  - intros [?|[?|?]]; auto.
Qed.

(** X1: a tag is returned by [detect_tech_stack] exactly when it is the
    lowercased name of a language of the record, or the lowercased form
    of a vocabulary keyword that the keyword loop finds (written in the
    corpus between two literal backslash-b pairs), or the canonical
    name of a framework one of whose aliases is a substring of the
    corpus.  Nothing else is ever returned. *)
Theorem X1_tag_provenance (rd : repo_data) (cfg : config) (t : string) :
  t ∈ detect_tech_stack rd cfg
  <-> (exists languages lang,
         rd_languages rd = Some languages
         /\ is_Some (languages !! lang) /\ t = lower lang)
      \/ (exists kw,
            kw ∈ tech_stack_keywords cfg
            /\ str_in ("\b" +:+ lower kw +:+ "\b") (content_of rd) = true
            /\ t = lower kw)
      \/ (exists aliases a,
            (t, aliases) ∈ frameworks /\ a ∈ aliases
            /\ str_in a (content_of rd) = true).
Proof. apply detect_tech_stack_elem. Qed.

Lemma framework_names_lowercase :
  Forall (fun entry => lower entry.1 = entry.1) frameworks.
Proof. repeat constructor. Qed.

(** X2: the tags returned by [detect_tech_stack] are all lowercase
    (lowercasing leaves them unchanged) and no tag is listed twice. *)
Theorem X2_tags_lowercase_distinct (rd : repo_data) (cfg : config) :
  NoDup (detect_tech_stack rd cfg)
  /\ Forall (fun t => lower t = t) (detect_tech_stack rd cfg).
Proof.
  split; [apply NoDup_elements|].
  apply Forall_forall. intros t Ht. apply detect_tech_stack_elem in Ht.
  destruct Ht as [(m & lang & _ & _ & ->)|[(kw & _ & _ & ->)|(al & a & Hin & _)]].
  - apply lower_idempotent.
  - apply lower_idempotent.
  - pose proof framework_names_lowercase as Hall.
    rewrite Forall_forall in Hall. exact (Hall _ Hin).
Qed.

End DetectorProvenance.

Section DetectorEdge.

(** X3: for a record without languages and with an empty (or missing)
    README and tech-bragging text, [detect_tech_stack] returns no tag,
    whatever the keyword vocabulary. *)
Theorem X3_empty_record_no_tags (rd : repo_data) (cfg : config) :
  default ∅ (rd_languages rd) = ∅ ->
  default "" (rd_readme rd) = "" ->
  default "" (rd_techbragging rd) = "" ->
  detect_tech_stack rd cfg = [].
Proof.
  intros Hl Hr Ht.
  assert (Hcontent : content_of rd = " ").
  { unfold content_of. by rewrite Hr, Ht. }
  assert (Hlang : add_languages rd ∅ = ∅).
  { unfold add_languages. destruct (rd_languages rd) as [m|]; [|done].
    simpl in Hl. subst m. by rewrite bool_decide_eq_true_2. }
  unfold detect_tech_stack, tech_stack_set.
  rewrite Hcontent, Hlang, keyword_loop_adds_nothing by done.
  assert (Hnone : add_frameworks frameworks " " ∅ = ∅).
  { apply set_eq. intros t. rewrite add_frameworks_spec. split; [|set_solver].
    intros [?|(aliases & a & Hin & Ha & Hs)]; [done|]. exfalso.
    assert (Hall : Forall (fun entry =>
                     Forall (fun alias => str_in alias " " = false) entry.2)
                   frameworks) by (repeat constructor).
    rewrite Forall_forall in Hall. specialize (Hall _ Hin). cbn [snd] in Hall.
    rewrite Forall_forall in Hall. specialize (Hall _ Ha). cbv beta in Hall.
    rewrite Hs in Hall. discriminate Hall. }
  rewrite Hnone. apply elements_empty.
Qed.

Lemma X3_witness :
  (default ∅ (rd_languages (no_extras ∅ "")) = ∅
   /\ default "" (rd_readme (no_extras ∅ "")) = ""
   /\ default "" (rd_techbragging (no_extras ∅ "")) = "")
  /\ detect_tech_stack (no_extras ∅ "") go_config = [].
Proof.
  split; [by repeat split|].
  by apply (X3_empty_record_no_tags (no_extras ∅ "") go_config).
Defined.

End DetectorEdge.

(** ** More on the maturity estimator *)
Section MaturityTable.

(** X4: the decision chain as a table.  The result is Production-Ready
    exactly when all eight signals hold; Beta exactly when there is a
    deploy path and not all eight signals hold; Legacy exactly when
    there is neither a deploy path nor a test path and the README
    mentions archived; Alpha exactly when there is no deploy path and
    the repository is not Legacy.  In particular tests, CI/CD, version,
    services and README never lift a repository without a deploy path
    above Alpha. *)
Theorem X4_maturity_table (rd : repo_data) :
  let deploy := list_truthy (deploy_files rd) in
  let tests := list_truthy (test_files rd) in
  let rest := list_truthy (cicd_files rd) && has_version rd
              && (has_contributing rd && has_changelog rd
                  && has_monitoring rd && has_security rd) in
  let archived := str_in "archived" (readme_lower rd) in
  (estimate_project_maturity rd = "Production-Ready"
   <-> deploy && tests && rest = true)
  /\ (estimate_project_maturity rd = "Beta"
      <-> deploy = true /\ tests && rest = false)
  /\ (estimate_project_maturity rd = "Legacy"
      <-> deploy = false /\ tests = false /\ archived = true)
  /\ (estimate_project_maturity rd = "Alpha"
      <-> deploy = false /\ (tests = true \/ archived = false)).
Proof.
  unfold estimate_project_maturity, decision.
  destruct (list_truthy (deploy_files rd)), (list_truthy (test_files rd)),
    (list_truthy (cicd_files rd)), (has_version rd), (has_contributing rd),
    (has_changelog rd), (has_monitoring rd), (has_security rd),
    (str_in "archived" (readme_lower rd)); simpl;
    repeat split; try discriminate; try tauto; intuition discriminate.
Qed.

End MaturityTable.

(** ** More on the README summary *)
Section SummaryShape.

Lemma has_char_append (c : ascii) (s t : string) :
  has_char c (s +:+ t) = has_char c s || has_char c t.
Proof.
  induction s as [|d s IH]; [done|]. rewrite append_cons. simpl.
  by rewrite IH, orb_assoc.
Qed.

Lemma has_char_take_str (c : ascii) (n : nat) (s : string) :
  has_char c s = false -> has_char c (take_str n s) = false.
Proof.
  revert s. induction n as [|n IH]; intros [|d s]; simpl; try done.
  intros [-> Hs]%orb_false_iff. by rewrite IH.
Qed.

Lemma has_char_lstrip (c : ascii) (s : string) :
  has_char c s = false -> has_char c (lstrip s) = false.
Proof.
  induction s as [|d s IH]; [done|]. simpl.
  destruct (is_space d); [|done]. intros [_ Hs]%orb_false_iff. by apply IH.
Qed.

Lemma has_char_rstrip (c : ascii) (s : string) :
  has_char c s = false -> has_char c (rstrip s) = false.
Proof.
  induction s as [|d s IH]; [done|]. simpl.
  intros [Hd Hs]%orb_false_iff. specialize (IH Hs).
  destruct (rstrip s) as [|e r]; [destruct (is_space d)|]; simpl in *;
    by rewrite ?Hd, ?IH.
Qed.

Lemma has_char_strip (c : ascii) (s : string) :
  has_char c s = false -> has_char c (strip s) = false.
Proof. intros Hs. by apply has_char_rstrip, has_char_lstrip. Qed.

Lemma has_char_sub_class (cls : list ascii) (c : ascii) (s : string) :
  c ∈ cls -> has_char c (Re.sub_class_plus_empty cls s) = false.
Proof.
  intros Hc. induction s as [|d s IH]; [done|]. simpl.
  destruct (existsb (Ascii.eqb d) cls) eqn:Hd; [done|]. simpl.
  rewrite IH, orb_false_r. apply Ascii.eqb_neq. intros ->.
  assert (Hyes : existsb (Ascii.eqb d) cls = true).
  { apply existsb_exists. exists d. split; [by apply list_elem_of_In|].
    apply Ascii.eqb_refl. }
  congruence.
Qed.

Lemma has_char_truncate (c : ascii) (s : string) :
  has_char c "..." = false -> has_char c s = false ->
  has_char c (truncate s) = false.
Proof.
  intros Hdots Hs. unfold truncate.
  destruct (200 <? String.length s)%nat; [|done].
  by rewrite has_char_append, has_char_take_str, Hdots.
Qed.

(** X5: the summary that [analyze_repositories] stores contains none of
    the characters #, *, backquote and underscore. *)
Theorem X5_summary_has_no_markdown (rd : repo_data) :
  Forall (fun c => has_char c (extract_summary rd) = false) markdown_chars.
Proof.
  apply Forall_forall. intros c Hc. unfold extract_summary.
  destruct (str_truthy _); [|done].
  destruct (list_truthy _); [|done].
  apply has_char_truncate.
  - unfold markdown_chars in Hc.
    repeat (apply elem_of_cons in Hc as [->|Hc]; [reflexivity|]).
    by apply elem_of_nil in Hc.
  - by apply has_char_strip, has_char_sub_class.
Qed.

Lemma lstrip_no_leading_space (s : string) : no_leading_space (lstrip s).
Proof.
  induction s as [|c s IH]; [done|]. simpl.
  destruct (is_space c) eqn:Hc; [done|]. simpl. done.
Qed.

Lemma lstrip_fixed (s : string) : no_leading_space s -> lstrip s = s.
Proof. destruct s as [|c s]; [done|]. simpl. by intros ->. Qed.

Lemma rstrip_no_leading_space (s : string) :
  no_leading_space s -> no_leading_space (rstrip s).
Proof.
  destruct s as [|c s]; [done|]. simpl. intros Hc.
  destruct (rstrip s); [by rewrite Hc|done].
Qed.

Lemma rstrip_idempotent (s : string) : rstrip (rstrip s) = rstrip s.
Proof.
  induction s as [|c s IH]; [done|]. simpl.
  destruct (rstrip s) as [|d r] eqn:Hr.
  - destruct (is_space c) eqn:Hc; [done|]. simpl. by rewrite Hc.
  - change (rstrip (String c (String d r))) with
      (match rstrip (String d r) with
       | EmptyString => if is_space c then EmptyString else String c EmptyString
       | r' => String c r'
       end).
    by rewrite IH.
Qed.

Lemma rstrip_append_fixed (s t : string) :
  t <> "" -> rstrip t = t -> rstrip (s +:+ t) = s +:+ t.
Proof.
  intros Hne Ht. induction s as [|c s IH]; [done|].
  rewrite append_cons. simpl. rewrite IH.
  destruct (s +:+ t) eqn:Hst; [|done].
  destruct s; [|done]. by rewrite append_empty_l in Hst.
Qed.

Lemma strip_fixed (s : string) :
  no_leading_space s -> rstrip s = s -> strip s = s.
Proof. intros Hl Hr. unfold strip. by rewrite lstrip_fixed. Qed.

Lemma strip_idempotent (s : string) : strip (strip s) = strip s.
Proof.
  apply strip_fixed.
  - apply rstrip_no_leading_space, lstrip_no_leading_space.
  - apply rstrip_idempotent.
Qed.

Lemma strip_truncate (s : string) : strip s = s -> strip (truncate s) = truncate s.
Proof.
  intros Hs. unfold truncate.
  destruct (200 <? String.length s)%nat eqn:Hlen; [|done].
  apply Nat.ltb_lt in Hlen. apply strip_fixed.
  - destruct s as [|c s]; [simpl in Hlen; lia|].
    change (take_str 197 (String c s)) with (String c (take_str 196 s)).
    rewrite append_cons. simpl.
    pose proof (lstrip_no_leading_space (String c s)) as Hl.
    assert (Hlead : no_leading_space (strip (String c s))).
    { apply rstrip_no_leading_space, lstrip_no_leading_space. }
    rewrite Hs in Hlead. exact Hlead.
  - by apply rstrip_append_fixed.
Qed.

(** X6: the stored summary has no leading and no trailing whitespace:
    stripping it again changes nothing, also when it was cut to 197
    characters and the three dots. *)
Theorem X6_summary_is_stripped (rd : repo_data) :
  strip (extract_summary rd) = extract_summary rd.
Proof.
  unfold extract_summary.
  destruct (str_truthy _); [|done].
  destruct (list_truthy _); [|done].
  apply strip_truncate. unfold clean_up_markdown. apply strip_idempotent.
Qed.

(** X7: a README that is missing or empty, or that consists of a single
    block starting with #, gives the empty summary. *)
Theorem X7_heading_only_summary (rd : repo_data) :
  (default "" (rd_readme rd) = "" -> extract_summary rd = "")
  /\ (forall heading : string,
        split (LF +:+ LF) (default "" (rd_readme rd)) = [heading] ->
        startswith "#" heading = true ->
        extract_summary rd = "").
Proof.
  split.
  - intros Hr. unfold extract_summary. by rewrite Hr.
  - intros heading Hs Hh. unfold extract_summary.
    destruct (str_truthy _); [|done].
    rewrite Hs. simpl. unfold first_paragraph. simpl nth. by rewrite Hh.
Qed.

Lemma X7_witness :
  (split (LF +:+ LF) (default "" (rd_readme (readme_of "# Only a title")))
   = ["# Only a title"]
   /\ startswith "#" "# Only a title" = true)
  /\ extract_summary (readme_of "# Only a title") = "".
Proof.
  split; [by split|].
  by apply (proj2 (X7_heading_only_summary (readme_of "# Only a title"))
              "# Only a title").
Defined.

End SummaryShape.

(** ** More on the service scanner *)
Section ServicesMore.






(** X10: a configuration file without a path, or whose content cannot
    be fetched or is empty, is skipped: the result is the same as
    without that file. *)
Theorem X10_unreadable_file_skipped (r : remote)
        (before after : list file_meta) (fm : file_meta)
        (service_keywords : list string) :
  match fm_path fm with
  | None => True
  | Some path => get_file_content r path = None
                 \/ get_file_content r path = Some ""
  end ->
  detect_services r (before ++ fm :: after) service_keywords
  = detect_services r (before ++ after) service_keywords.
Proof.
  intros Hfm. apply map_eq. intros s. rewrite !detect_services_lookup.
  assert (Hno : file_evidence r s fm = false).
  { unfold file_evidence. destruct (fm_path fm) as [path|]; [|done].
    by destruct Hfm as [-> | ->]. }
  unfold evidence. rewrite !existsb_app. simpl. by rewrite Hno.
Qed.

Lemma X10_witness :
  match fm_path {| fm_path := Some "gone.yml" |} with
  | None => True
  | Some path => get_file_content remote_with_workflows path = None
                 \/ get_file_content remote_with_workflows path = Some ""
  end
  /\ detect_services remote_with_workflows
       ([] ++ {| fm_path := Some "gone.yml" |} :: []) ["sentry"]
     = detect_services remote_with_workflows ([] ++ []) ["sentry"].
Proof.
  split; [by left|].
  apply (X10_unreadable_file_skipped remote_with_workflows [] []
           {| fm_path := Some "gone.yml" |} ["sentry"]).
  by left.
Defined.

End ServicesMore.

(** ** Listings *)
Section Listings.

Lemma list_in_spec (x : string) (l : list string) : list_in x l = true <-> x ∈ l.
Proof.
  unfold list_in. rewrite existsb_exists. split.
  - intros (y & Hy%list_elem_of_In & ->%String.eqb_eq). done.
  - intros Hx. exists x. split; [by apply list_elem_of_In | apply String.eqb_refl].
Qed.

Lemma elem_of_concat {A} (x : A) (ls : list (list A)) :
  x ∈ concat ls <-> exists l, x ∈ l /\ l ∈ ls.
Proof.
  rewrite list_elem_of_In, in_concat. split.
  - intros (l & Hl & Hx). exists l. by rewrite !list_elem_of_In.
  - intros (l & Hx & Hl). exists l. by rewrite <- !list_elem_of_In.
Qed.

Lemma take_drop_str (n : nat) (s : string) : take_str n s +:+ drop_str n s = s.
Proof.
  revert s. induction n as [|n IH]; intros [|c s]; try done.
  simpl take_str. simpl drop_str. by rewrite append_cons, IH.
Qed.

(** [splitext] cuts the name in two: root and extension give the name
    back. *)
Lemma splitext_join (p : string) : (splitext p).1 +:+ (splitext p).2 = p.
Proof.
  unfold splitext. destruct (_ <? _).
  - destruct (all_dots _); simpl; [|apply take_drop_str].
    induction p as [|c p IH]; [done|]. by rewrite append_cons, IH.
  - simpl. induction p as [|c p IH]; [done|]. by rewrite append_cons, IH.
Qed.

Lemma keep_dir_items_spec (extensions : list string)
      (config_files dir_contents : list content_item) :
  foldl (keep_dir_item extensions) config_files dir_contents
  = config_files ++ List.filter (is_config_file extensions) dir_contents.
Proof.
  revert config_files.
  induction dir_contents as [|d ds IH]; intros config_files; simpl.
  - by rewrite app_nil_r.
  - rewrite IH. unfold keep_dir_item, is_config_file.
    destruct (String.eqb (item_type d) "file"); simpl; [|done].
    destruct (has_extension extensions (item_name d)); [|done].
    by rewrite <- app_assoc.
Qed.

Lemma scan_item_spec (api : string -> api_answer content_item)
      (extensions : list string) (config_files : list content_item)
      (item : content_item) :
  scan_item api extensions config_files item
  = config_files ++ found_at api extensions item.
Proof.
  unfold scan_item, found_at, is_scanned_dir.
  destruct (String.eqb (item_type item) "file").
  - destruct (has_extension _ _); [done | by rewrite app_nil_r].
  - destruct (String.eqb (item_type item) "dir" && _); [|by rewrite app_nil_r].
    unfold scan_directory.
    destruct (api (item_url item)); simpl; rewrite ?app_nil_r; try done.
    apply keep_dir_items_spec.
Qed.

Lemma scan_items_spec (api : string -> api_answer content_item)
      (extensions : list string) (config_files result : list content_item) :
  foldl (scan_item api extensions) config_files result
  = config_files ++ concat (found_at api extensions <$> result).
Proof.
  revert config_files.
  induction result as [|item result IH]; intros config_files; simpl.
  - by rewrite app_nil_r.
  - by rewrite IH, scan_item_spec, <- app_assoc.
Qed.

Lemma find_config_files_spec (api : string -> api_answer content_item)
      (org repo : string) (extensions : option (list string)) :
  find_config_files api org repo extensions
  = concat (found_at api (default default_extensions extensions)
              <$> listing_entries (api (contents_path org repo))).
Proof.
  unfold find_config_files.
  destruct (api (contents_path org repo)); simpl; try done.
  by rewrite scan_items_spec.
Qed.

Lemma is_config_file_name (extensions : list string) (e : content_item) :
  is_config_file extensions e = true ->
  item_type e = "file"
  /\ exists root ext, ext ∈ extensions /\ item_name e = root +:+ ext.
Proof.
  unfold is_config_file, has_extension.
  rewrite andb_true_iff, String.eqb_eq, list_in_spec.
  intros [Ht Hext]. split; [done|].
  exists (splitext (item_name e)).1, (splitext (item_name e)).2.
  split; [done|]. by rewrite splitext_join.
Qed.

Lemma found_at_elem (api : string -> api_answer content_item)
      (extensions : list string) (item e : content_item) :
  e ∈ found_at api extensions item
  <-> is_config_file extensions e = true
      /\ (e = item
          \/ (is_scanned_dir item = true
              /\ e ∈ listing_entries (api (item_url item)))).
Proof.
  unfold found_at, is_scanned_dir, is_config_file.
  destruct (String.eqb (item_type item) "file") eqn:Hfile.
  - destruct (has_extension extensions (item_name item)) eqn:Hext.
    + rewrite list_elem_of_singleton. split.
      * intros ->. rewrite Hfile, Hext. split; [done | by left].
      * intros [_ [-> | [Hdir _]]]; [done|].
        apply String.eqb_eq in Hfile.
        apply andb_true_iff in Hdir as [Hdir%String.eqb_eq _]. congruence.
    + split; [by intros ?%elem_of_nil|].
      intros [He [-> | [Hdir _]]].
      * rewrite Hfile, Hext in He. done.
      * apply String.eqb_eq in Hfile.
        apply andb_true_iff in Hdir as [Hdir%String.eqb_eq _]. congruence.
  - destruct (String.eqb (item_type item) "dir" && _) eqn:Hdir.
    + rewrite list_elem_of_In, filter_In, <- list_elem_of_In. split.
      * intros [Hin He]. split; [done|]. right. done.
      * intros [He [-> | [_ Hin]]].
        -- rewrite Hfile in He. done.
        -- done.
    + split; [by intros ?%elem_of_nil|].
      intros [He [-> | [? _]]]; [|done]. rewrite Hfile in He. done.
Qed.

(** X11: an entry is returned by [find_config_files] exactly when it is
    a file with one of the extensions that is listed at the top level
    of the repository or directly in a top-level directory named
    .github, config or configs.  Other directories are never looked
    into, and neither are the directories inside those three. *)
Theorem X11_find_config_files_elem
        (api : string -> api_answer content_item) (org repo : string)
        (extensions : option (list string)) (e : content_item) :
  e ∈ find_config_files api org repo extensions
  <-> is_config_file (default default_extensions extensions) e = true
      /\ (e ∈ listing_entries (api (contents_path org repo))
          \/ exists dir,
               dir ∈ listing_entries (api (contents_path org repo))
               /\ is_scanned_dir dir = true
               /\ e ∈ listing_entries (api (item_url dir))).
Proof.
  rewrite find_config_files_spec, elem_of_concat. split.
  - intros (l & He & (item & -> & Hitem)%list_elem_of_fmap).
    apply found_at_elem in He as [Hc [-> | [Hd Hin]]].
    + split; [done | by left].
    + split; [done|]. right. by exists item.
  - intros [Hc [Htop | (dir & Hdir & Hd & Hin)]].
    + exists (found_at api (default default_extensions extensions) e).
      split; [apply found_at_elem; split; [done | by left]|].
      apply list_elem_of_fmap. by exists e.
    + exists (found_at api (default default_extensions extensions) dir).
      split; [apply found_at_elem; split; [done | by right]|].
      apply list_elem_of_fmap. by exists dir.
Qed.

(** X12: every entry returned by [find_config_files] is of type file
    and its name ends with one of the extensions (with .toml, .yaml,
    .yml or .json when no extensions are given). *)
Theorem X12_find_config_files_names
        (api : string -> api_answer content_item) (org repo : string)
        (extensions : option (list string)) :
  Forall (fun e =>
            item_type e = "file"
            /\ exists root ext,
                 ext ∈ default default_extensions extensions
                 /\ item_name e = root +:+ ext)
         (find_config_files api org repo extensions).
Proof.
  apply Forall_forall. intros e He. apply is_config_file_name.
  rewrite find_config_files_spec, elem_of_concat in He.
  destruct He as (l & He & (item & -> & Hitem)%list_elem_of_fmap).
  by apply found_at_elem in He as [Hc _].
Qed.

(** X13: a listing call that fails, or whose answer is not a list, is
    treated exactly like an empty listing, at the top level and for the
    directories: two remotes whose listings have the same entries give
    the same configuration files.  In particular a failing top-level
    listing gives no configuration file. *)
Theorem X13_failed_listing_is_empty
        (api api' : string -> api_answer content_item) (org repo : string)
        (extensions : option (list string)) :
  (forall u, listing_entries (api u) = listing_entries (api' u)) ->
  find_config_files api org repo extensions
  = find_config_files api' org repo extensions
  /\ (listing_entries (api (contents_path org repo)) = [] ->
      find_config_files api org repo extensions = []).
Proof.
  intros Hsame. rewrite !find_config_files_spec. split.
  - rewrite Hsame. f_equal. apply list_fmap_ext. intros _ item _.
    unfold found_at. by rewrite Hsame.
  - by intros ->.
Qed.

Lemma X13_witness :
  (forall u, listing_entries (failing_dirs u) = listing_entries (empty_dirs u))
  /\ find_config_files failing_dirs "org" "repo" None
     = find_config_files empty_dirs "org" "repo" None.
Proof.
  assert (H : forall u, listing_entries (failing_dirs u)
                        = listing_entries (empty_dirs u)).
  { intros u. unfold failing_dirs, empty_dirs.
    by destruct (String.eqb u (contents_path "org" "repo")). }
  split; [exact H|].
  exact (proj1 (X13_failed_listing_is_empty failing_dirs empty_dirs
                  "org" "repo" None H)).
Defined.

(** X14: [list_repositories] lets a failing listing through as an
    exception; otherwise it returns, in listing order, the repositories
    whose name is not in the exclude list and, when the include filter
    is switched on, is in the include list.  So an excluded repository
    is never returned, even when it is also included, and an include
    filter that is switched on without an include list returns
    nothing. *)
Theorem X14_list_repositories_filter (answer : api_answer repo_info)
        (rf : repository_filter) :
  (answer = ApiFails \/ answer = ApiObject ->
   list_repositories answer rf = None)
  /\ (forall repos, answer = ApiList repos ->
      exists kept,
        list_repositories answer rf = Some kept
        /\ (kept `sublist_of` repos)
        /\ (forall r, r ∈ kept <->
              r ∈ repos
              /\ (repo_name r ∉ default [] (exclude_list rf))
              /\ (default false (use_include_list rf) = true ->
                  repo_name r ∈ default [] (include_list rf)))
        /\ (use_include_list rf = Some true -> include_list rf = None ->
            kept = [])).
Proof.
  split.
  - by intros [-> | ->].
  - intros repos ->. unfold list_repositories.
    set (included := if default false (use_include_list rf)
                     then List.filter _ repos else repos).
    exists (List.filter (fun r => negb (list_in (repo_name r)
                                          (default [] (exclude_list rf))))
                        included).
    assert (Hsub : forall (f : repo_info -> bool) l, List.filter f l `sublist_of` l).
    { intros f l. induction l as [|x l IH]; simpl; [done|].
      destruct (f x); by constructor. }
    split; [done|]. split; [|split].
    + etrans; [apply Hsub|]. unfold included.
      destruct (default false (use_include_list rf)); [apply Hsub|done].
    + intros r. rewrite list_elem_of_In, filter_In, <- list_elem_of_In.
      rewrite negb_true_iff, <- not_true_iff_false, list_in_spec.
      unfold included. destruct (default false (use_include_list rf)).
      * rewrite list_elem_of_In, filter_In, <- list_elem_of_In, list_in_spec.
        tauto.
      * split; [intros [? ?]; repeat split; [done|done|discriminate] | tauto].
    + intros Hu Hi. unfold included. rewrite Hu, Hi. simpl.
      induction repos as [|x l IH]; [done|]. simpl. exact IH.
Qed.

(** X15: [get_repository_contributors] never raises: a failing call or
    an answer that is not a list gives []; otherwise, for a
    non-negative limit (50 when the configuration has none), the result
    is the first entries of the listing, at most as many as the limit. *)
Theorem X15_contributors_bounded {A} (answer : api_answer A)
        (max_contributors : option Z) :
  0 <= default 50 max_contributors ->
  get_repository_contributors answer max_contributors
  = take (Z.to_nat (default 50 max_contributors)) (listing_entries answer)
  /\ (length (get_repository_contributors answer max_contributors)
      <= Z.to_nat (default 50%Z max_contributors))%nat.
Proof.
  intros Hmax.
  assert (Heq : get_repository_contributors answer max_contributors
                = take (Z.to_nat (default 50 max_contributors))
                       (listing_entries answer)).
  { unfold get_repository_contributors, slice_to.
    destruct answer; simpl; rewrite ?take_nil; try done.
    by rewrite (proj2 (Z.leb_le 0 _) Hmax). }
  split; [done|]. rewrite Heq, length_take. lia.
Qed.

Lemma X15_witness :
  0 <= default 50 (Some 2)
  /\ get_repository_contributors (ApiList ["ann"; "bob"; "cyd"]) (Some 2)
     = take (Z.to_nat (default 50 (Some 2)))
            (listing_entries (ApiList ["ann"; "bob"; "cyd"])).
Proof.
  split; [done|].
  by apply (X15_contributors_bounded (ApiList ["ann"; "bob"; "cyd"]) (Some 2)).
Defined.

End Listings.

(** ** The scanner, the extraction and the estimator together *)
Section Pipeline.

Lemma production_ready_signals (rd : repo_data) :
  estimate_project_maturity rd = "Production-Ready" ->
  has_monitoring rd = true /\ has_security rd = true.
Proof.
  unfold estimate_project_maturity, decision.
  destruct (list_truthy (deploy_files rd) && _ && _ && _);
    [|destruct (negb _ && _ && _); [|destruct (list_truthy (deploy_files rd))];
      discriminate].
  destruct (has_contributing rd), (has_changelog rd), (has_monitoring rd),
    (has_security rd); simpl; try done;
    destruct (list_truthy (deploy_files rd)); discriminate.
Qed.

Lemma flag_true_needs_keyword (r : remote) (config_files : list file_meta)
      (service_keywords : list string) (s : string) :
  s <> github_actions ->
  default false (detect_services r config_files service_keywords !! s) = true ->
  s ∈ service_keywords /\ evidence r config_files s = true.
Proof.
  intros Hs. rewrite detect_services_lookup.
  rewrite (bool_decide_eq_false_2 _ Hs), andb_false_r.
  case_bool_decide as Hin; [|done]. simpl. by intros ->.
Qed.

(** X16: when the service flags of a record come from
    [detect_services], the estimator can only answer Production-Ready
    if the vocabulary contains the keywords sentry and snyk spelled
    exactly so (the estimator reads these two keys), each with evidence
    in a fetched configuration file. *)
Theorem X16_production_ready_needs_vocabulary (rd : repo_data) (r : remote)
        (config_files : list file_meta) (service_keywords : list string) :
  rd_services rd = Some (detect_services r config_files service_keywords) ->
  estimate_project_maturity rd = "Production-Ready" ->
  ("sentry" ∈ service_keywords /\ evidence r config_files "sentry" = true)
  /\ ("snyk" ∈ service_keywords /\ evidence r config_files "snyk" = true).
Proof.
  intros Hsv Hpr. apply production_ready_signals in Hpr as [Hm Hs].
  unfold has_monitoring, has_security in *. rewrite Hsv in Hm, Hs.
  split; by apply flag_true_needs_keyword.
Qed.

Lemma X16_witness :
  (rd_services monitored_repo
   = Some (detect_services monitored_remote monitored_files ["sentry"; "snyk"])
   /\ estimate_project_maturity monitored_repo = "Production-Ready")
  /\ "sentry" ∈ ["sentry"; "snyk"].
Proof.
  split; [split; reflexivity|].
  apply (X16_production_ready_needs_vocabulary monitored_repo monitored_remote
           monitored_files ["sentry"; "snyk"]); reflexivity.
Defined.

Lemma no_paths_alpha_or_legacy (rd : repo_data) :
  config_file_paths rd = [] ->
  estimate_project_maturity rd ∈ ["Alpha"; "Legacy"].
Proof.
  intros Hp. unfold estimate_project_maturity, decision, deploy_files, test_files.
  rewrite Hp. simpl.
  destruct (str_in "archived" (readme_lower rd)).
  - apply list_elem_of_further, list_elem_of_here.
  - apply list_elem_of_here.
Qed.

(** X17: when the top-level listing of a repository fails or is empty,
    or when the configuration has no service vocabulary, the record
    written by [extract_repo_data] has no configuration file, and the
    estimator classifies it as Alpha or Legacy, whatever its README
    says. *)
Theorem X17_failed_extraction_is_alpha_or_legacy (rm : Extract.repo_remote)
        (org repo : string) (service_keywords : option (list string)) :
  listing_entries (Extract.listings rm (contents_path org repo)) = []
  \/ service_keywords = None ->
  rd_config_files (Extract.extract_repo_data rm org repo service_keywords)
  = Some []
  /\ estimate_project_maturity
       (Extract.extract_repo_data rm org repo service_keywords)
     ∈ ["Alpha"; "Legacy"].
Proof.
  intros Hfail.
  assert (Hcf : rd_config_files
                  (Extract.extract_repo_data rm org repo service_keywords)
                = Some []).
  { unfold Extract.extract_repo_data. destruct Hfail as [Hl | ->]; [|done].
    rewrite find_config_files_spec, Hl. by destruct service_keywords. }
  split; [done|]. apply no_paths_alpha_or_legacy.
  unfold config_file_paths. by rewrite Hcf.
Qed.

Lemma X17_witness :
  (listing_entries (Extract.listings unreachable_remote (contents_path "org" "repo")) = []
   \/ Some ["sentry"] = None)
  /\ rd_config_files
       (Extract.extract_repo_data unreachable_remote "org" "repo" (Some ["sentry"]))
     = Some [].
Proof.
  split; [by left|].
  apply (X17_failed_extraction_is_alpha_or_legacy unreachable_remote
           "org" "repo" (Some ["sentry"])).
  by left.
Defined.

End Pipeline.

(** ** More on the technology ranking *)
Section RankingMore.

(** X18: outside the usual range of [top_n]: a limit at least as large
    as the number of distinct tags returns the whole ranking, and a
    negative limit does not return an empty list but the ranking
    without its last [-top_n] entries. *)
Theorem X18_top_n_out_of_range (repositories : list repository) (top_n : Z) :
  let ranked := ranked_technologies repositories in
  (Z.of_nat (length ranked) <= top_n ->
   get_top_technologies repositories top_n = ranked)
  /\ (top_n < 0 ->
      get_top_technologies repositories top_n
      = take (length ranked - Z.to_nat (- top_n)) ranked).
Proof.
  intros ranked. unfold get_top_technologies, slice_to. fold ranked. split.
  - intros Hn. rewrite (proj2 (Z.leb_le 0 top_n)) by lia.
    apply take_ge. lia.
  - intros Hn. rewrite (proj2 (Z.leb_gt 0 top_n)) by lia.
    f_equal. lia.
Qed.

Lemma X18_witness :
  -1 < 0
  /\ get_top_technologies a_first (-1)
     = take (length (ranked_technologies a_first) - Z.to_nat (- -1))
            (ranked_technologies a_first).
Proof.
  split; [lia|]. apply (X18_top_n_out_of_range a_first (-1)). lia.
Defined.

Lemma occurrences_app (t : string) (l1 l2 : list string) :
  occurrences t (l1 ++ l2) = occurrences t l1 + occurrences t l2.
Proof. unfold occurrences. rewrite filter_app, length_app. lia. Qed.

Lemma occurrences_NoDup (t : string) (l : list string) :
  NoDup l -> occurrences t l = if bool_decide (t ∈ l) then 1 else 0.
Proof.
  intros Hnd. case_bool_decide as Ht.
  - unfold occurrences. by rewrite occurs_once.
  - by apply occurrences_absent.
Qed.

Lemma occurrences_all_tags (t : string) (repositories : list repository) :
  Forall (fun repo => NoDup (default [] (tech_stack repo))) repositories ->
  occurrences t (all_tags repositories) = users_of t repositories.
Proof.
  unfold all_tags, users_of.
  induction 1 as [|repo repos Hnd _ IH]; [done|].
  rewrite fmap_cons. cbn [concat List.filter].
  rewrite occurrences_app, IH, (occurrences_NoDup _ _ Hnd).
  destruct (bool_decide _); cbn [length]; lia.
Qed.

Lemma users_of_le (t : string) (repositories : list repository) :
  users_of t repositories <= Z.of_nat (length repositories).
Proof.
  unfold users_of. apply inj_le.
  induction repositories as [|repo repos IH]; simpl; [done|].
  destruct (bool_decide _); simpl; lia.
Qed.

(** X19: over the records produced by the analysis, whose tag lists
    have no duplicates, the count that the ranking reports for a
    technology is the number of repositories that use it; it is at
    least 1 and at most the number of repositories. *)
Theorem X19_count_is_number_of_repositories (cfg : config)
        (raw : list repo_data) (t : string) (c : Z) :
  (t, c) ∈ ranked_technologies (processed cfg <$> raw) ->
  c = users_of t (processed cfg <$> raw)
  /\ 1 <= c <= Z.of_nat (length raw).
Proof.
  intros Htc.
  destruct (ranked_counted (processed cfg <$> raw)) as (_ & Hmem & _).
  apply Hmem in Htc as [Ht ->].
  assert (Hnd : Forall (fun repo => NoDup (default [] (tech_stack repo)))
                       (processed cfg <$> raw)).
  { apply Forall_fmap, Forall_forall. intros rd _.
    change (NoDup (detect_tech_stack rd cfg)). apply NoDup_elements. }
  rewrite (occurrences_all_tags _ _ Hnd). split; [done|]. split.
  - rewrite <- (occurrences_all_tags _ _ Hnd). unfold occurrences.
    destruct (filter _ _) as [|x l] eqn:Hf; [|simpl; lia].
    exfalso. assert (Hin : t ∈ filter (fun x => x = t) (all_tags (processed cfg <$> raw)))
      by (by apply list_elem_of_filter).
    rewrite Hf in Hin. by apply elem_of_nil in Hin.
  - etrans; [apply users_of_le|]. by rewrite length_fmap.
Qed.

Lemma X19_witness :
  ("react", 1) ∈ ranked_technologies (processed go_config <$> [react_repo; go_repo])
  /\ 1 = users_of "react" (processed go_config <$> [react_repo; go_repo]).
Proof.
  assert (H : ("react", 1) ∈ ranked_technologies
                               (processed go_config <$> [react_repo; go_repo])).
  { vm_compute. apply list_elem_of_further, list_elem_of_here. }
  split; [exact H|].
  by apply (X19_count_is_number_of_repositories go_config
              [react_repo; go_repo] "react" 1).
Defined.

End RankingMore.

(** ** The summaries of the report generator *)
Section ReportSummaries.

Lemma replace_char_empty (c : ascii) (s : string) :
  replace (String c "") "" s = Re.sub_class_plus_empty [c] s.
Proof.
  unfold replace. induction s as [|d s IH]; [done|].
  cbn [replace_scan Re.sub_class_plus_empty startswith existsb String.length].
  rewrite andb_true_r, orb_false_r, (Ascii.eqb_sym c d).
  change (1 - 1)%nat with 0%nat. rewrite append_empty_l.
  destruct (Ascii.eqb d c); by rewrite IH.
Qed.

Lemma sub_class_twice (cls1 cls2 : list ascii) (s : string) :
  Re.sub_class_plus_empty cls2 (Re.sub_class_plus_empty cls1 s)
  = Re.sub_class_plus_empty (cls1 ++ cls2) s.
Proof.
  induction s as [|d s IH]; [done|]. simpl. rewrite existsb_app.
  destruct (existsb (Ascii.eqb d) cls1); simpl; [done|].
  destruct (existsb (Ascii.eqb d) cls2); by rewrite IH.
Qed.

Lemma sub_class_absent (cls : list ascii) (c : ascii) (s : string) :
  has_char c s = false ->
  Re.sub_class_plus_empty (cls ++ [c]) s = Re.sub_class_plus_empty cls s.
Proof.
  induction s as [|d s IH]; [done|]. simpl.
  intros [Hd Hs]%orb_false_iff. rewrite existsb_app. simpl.
  rewrite (Ascii.eqb_sym d c), Hd, !orb_false_r, IH by done. done.
Qed.

(** The clean-up of the report generator removes #, * and the backquote,
    but not the underscore. *)
Lemma strip_markup_spec (paragraph : string) :
  strip_markup paragraph
  = strip (Re.sub_class_plus_empty ["#"; "*"; "`"]%char paragraph).
Proof.
  unfold strip_markup. by rewrite !replace_char_empty, !sub_class_twice.
Qed.

Lemma text_summary_spec (text : string) :
  text_summary text
  = if str_truthy text
    then truncate (strip_markup (first_paragraph (split (LF +:+ LF) text)))
    else "".
Proof.
  unfold text_summary. destruct (str_truthy text); [|done].
  destruct (split (LF +:+ LF) text) as [|p ps] eqn:Hs; [|done].
  by apply split_scan_not_nil in Hs.
Qed.

Lemma text_summary_length (text : string) :
  (String.length (text_summary text) <= 200)%nat.
Proof.
  rewrite text_summary_spec. destruct (str_truthy text); [|simpl; lia].
  apply truncate_length.
Qed.

(** X20: [extract_readme_summary] returns a stored summary as it is,
    whatever its length.  Without a stored summary it needs the org and
    the name of the record (a missing one is a [KeyError]); it then
    returns a text of at most 200 characters, which is empty when the
    raw record cannot be loaded. *)
Theorem X20_readme_summary_cases (repo : report_entry)
        (load : string -> string -> option repo_data) :
  match re_summary repo, re_org repo, re_name repo with
  | Some summary, _, _ => extract_readme_summary repo load = Some summary
  | None, Some org, Some name =>
      exists s, extract_readme_summary repo load = Some s
                /\ (String.length s <= 200)%nat
                /\ (load org name = None -> s = "")
  | None, _, _ => extract_readme_summary repo load = None
  end.
Proof.
  unfold extract_readme_summary.
  destruct (re_summary repo) as [summary|]; [done|].
  destruct (re_org repo) as [org|]; [|done].
  destruct (re_name repo) as [name|]; [|done].
  eexists. split; [done|]. split.
  - destruct (load org name); [apply text_summary_length | simpl; lia].
  - by intros ->.
Qed.


(** X22: on a README whose summary paragraph has no underscore, the
    summary that the report generator derives from the raw record is
    the summary that the analysis stores. *)
Theorem X22_summaries_agree (rd : repo_data) :
  has_char "_" (first_paragraph
                  (split (LF +:+ LF) (default "" (rd_readme rd)))) = false ->
  text_summary (default "" (rd_readme rd)) = extract_summary rd.
Proof.
  intros Hno. rewrite text_summary_spec.
  destruct (str_truthy (default "" (rd_readme rd))) eqn:Ht.
  - rewrite (extract_summary_nonempty rd Ht), strip_markup_spec.
    unfold clean_up_markdown, markdown_chars.
    pose proof (sub_class_absent ["#"; "*"; "`"]%char "_" _ Hno) as Heq.
    cbn [app] in Heq. by rewrite Heq.
  - unfold extract_summary. by rewrite Ht.
Qed.

Lemma X22_witness :
  has_char "_" (first_paragraph
                  (split (LF +:+ LF)
                     (default "" (rd_readme (readme_of (headed_readme plain_paragraph))))))
  = false
  /\ text_summary (default "" (rd_readme (readme_of (headed_readme plain_paragraph))))
     = extract_summary (readme_of (headed_readme plain_paragraph)).
Proof.
  split; [reflexivity|].
  by apply (X22_summaries_agree (readme_of (headed_readme plain_paragraph))).
Defined.

End ReportSummaries.

(** ** The portfolio *)
Section Portfolio.

(** X23: [generate_portfolio] selects, in order, the repositories with
    a summary of more than 10 characters or with a homepage.  The
    selection raises exactly when a selected repository has no name;
    otherwise every project comes from a selected repository and has a
    summary of more than 10 characters or a non-empty homepage. *)
Theorem X23_portfolio_selection (repositories : list report_entry) :
  match portfolio_projects repositories with
  | Some projects =>
      Forall2 (fun repo p => project_of repo = Some p)
              (List.filter in_portfolio repositories) projects
      /\ Forall (fun p => (10 < String.length (project_summary p))%nat
                          \/ project_homepage p <> "") projects
  | None =>
      exists repo, repo ∈ repositories /\ in_portfolio repo = true
                   /\ re_name repo = None
  end.
Proof.
  induction repositories as [|repo repos IH]; simpl.
  - split; constructor.
  - destruct (in_portfolio repo) eqn:Hsel.
    + destruct (project_of repo) as [p|] eqn:Hp.
      * destruct (portfolio_projects repos) as [ps|]; simpl.
        -- destruct IH as [IH1 IH2]. split; constructor; try done.
           unfold project_of in Hp. destruct (re_name repo); [|done].
           injection Hp as <-. simpl.
           unfold in_portfolio in Hsel. apply orb_true_iff in Hsel as [Hs|Hh].
           ++ left. by apply Nat.ltb_lt.
           ++ right. intros Heq. by rewrite Heq in Hh.
        -- destruct IH as (r & Hr & Hs & Hn). exists r.
           split; [by apply list_elem_of_further|done].
      * exists repo. split; [apply list_elem_of_here|]. split; [done|].
        unfold project_of in Hp. by destruct (re_name repo).
    + destruct (portfolio_projects repos) as [ps|]; [done|].
      destruct IH as (r & Hr & Hs & Hn). exists r.
      split; [by apply list_elem_of_further|done].
Qed.

Lemma replace_space (s : string) : replace " " "_" s = map_chars underscore_char s.
Proof.
  unfold replace. induction s as [|c s IH]; [done|].
  cbn [replace_scan startswith String.length map_chars].
  rewrite andb_true_r, (Ascii.eqb_sym " " c). unfold underscore_char.
  change (1 - 1)%nat with 0%nat.
  destruct (Ascii.eqb c " "); by rewrite IH.
Qed.

Lemma underscore_char_lower (c : ascii) :
  is_upper c = false ->
  is_upper (underscore_char c) = false
  /\ Ascii.eqb " " (underscore_char c) = false
  /\ underscore_char (underscore_char c) = underscore_char c.
Proof. destruct c as [[] [] [] [] [] [] [] []]; by vm_compute. Qed.

(** X24: the stem of a project page contains no space and no capital
    letter, and a project named by the stem of another project gets
    that same stem: the two projects are written to the same page. *)
Theorem X24_project_filename (p : project) :
  has_char " " (project_filename p) = false
  /\ lower (project_filename p) = project_filename p
  /\ (forall p' : project,
        project_name p' = project_filename p ->
        project_filename p' = project_filename p).
Proof.
  unfold project_filename. rewrite replace_space.
  assert (Hchars : forall s,
            lower s = s ->
            has_char " " (map_chars underscore_char s) = false
            /\ lower (map_chars underscore_char s) = map_chars underscore_char s
            /\ map_chars underscore_char (map_chars underscore_char s)
               = map_chars underscore_char s).
  { induction s as [|c s IH]; [done|].
    cbn [map_chars lower has_char]. intros [= Hc Hs].
    assert (Hup : is_upper c = false).
    { rewrite <- Hc. apply lower_char_not_upper. }
    destruct (underscore_char_lower c Hup) as (H1 & H2 & H3).
    destruct (IH Hs) as (IH1 & IH2 & IH3).
    rewrite H2, IH1, IH2, H3, IH3. split; [done|]. split; [|done].
    unfold lower_char. by rewrite H1. }
  destruct (Hchars (lower (project_name p)) (lower_idempotent _))
    as (H1 & H2 & H3).
  split; [done|]. split; [done|].
  intros p' ->. by rewrite replace_space, H2, H3.
Qed.

End Portfolio.

(** ** The aggregation loops of the charts *)
Section Aggregation.















End Aggregation.
